(** * Resilient web-search client: rate limiter, cache, security filter,
      search orchestration and Sonar answer escalation.

    A shallow embedding of the TypeScript sources under
    [src/tools/web-search/] (rate-limiter, cache, security, errors, client,
    sonar-client, the two tool handlers) and of [getEnv] in
    [src/utils/helpers.ts], together with the properties stated in the
    specification. *)

From Stdlib Require Import ZArith Lia Ascii String List Bool.
From Stdlib Require PrimFloat.
From stdpp Require Import base option list strings gmap.

Local Open Scope string_scope.
Local Open Scope Z_scope.

(** ** JavaScript numbers used as 32-bit integers

    The bitwise operators of JavaScript convert their operands with ToInt32
    and produce an int32; [+] on the integers that occur here is exact. *)
Module JS.

Definition ToInt32 (z : Z) : Z :=
  let m := z mod 2 ^ 32 in
  if 2 ^ 31 <=? m then m - 2 ^ 32 else m.

(** [a << n]: the shift count is taken modulo 32. *)
Definition shl (a n : Z) : Z := ToInt32 (Z.shiftl (ToInt32 a) (n mod 32)).

(** [a & b] *)
Definition and (a b : Z) : Z := ToInt32 (Z.land (ToInt32 a) (ToInt32 b)).

(** [~a] *)
Definition not (a : Z) : Z := ToInt32 (Z.lnot (ToInt32 a)).

(** [\d] of a regular expression without the unicode flag. *)
Definition is_digit (c : ascii) : bool :=
  let n := nat_of_ascii c in (48 <=? n)%nat && (n <=? 57)%nat.

Definition digit_value (c : ascii) : Z := Z.of_nat (nat_of_ascii c) - 48.

(** Value of a string of decimal digits, most significant first. *)
Fixpoint digits_value (acc : Z) (s : string) : Z :=
  match s with
  | EmptyString => acc
  | String c rest => digits_value (10 * acc + digit_value c) rest
  end.

Fixpoint all_digits (s : string) : bool :=
  match s with
  | EmptyString => true
  | String c rest => is_digit c && all_digits rest
  end.

(** [s.split(sep)] for a one-character separator. *)
Fixpoint split (sep : ascii) (s : string) : list string :=
  match s with
  | EmptyString => [EmptyString]
  | String c rest =>
      if Ascii.eqb c sep then EmptyString :: split sep rest
      else match split sep rest with
           | h :: t => String c h :: t
           | [] => [String c EmptyString]
           end
  end.

(** [parts.join(sep)] for an array of strings. *)
Fixpoint join (sep : string) (parts : list string) : string :=
  match parts with
  | [] => EmptyString
  | [p] => p
  | p :: rest => p +:+ sep +:+ join sep rest
  end.

Definition is_space (c : ascii) : bool :=
  let n := nat_of_ascii c in
  (n =? 32)%nat || ((9 <=? n)%nat && (n <=? 13)%nat).

Fixpoint skip_spaces (s : string) : string :=
  match s with
  | String c rest => if is_space c then skip_spaces rest else s
  | EmptyString => s
  end.

(** Longest prefix of decimal digits. *)
Fixpoint take_digits (s : string) : string :=
  match s with
  | String c rest => if is_digit c then String c (take_digits rest) else EmptyString
  | EmptyString => EmptyString
  end.

(** [parseInt(s, 10)]; [None] is NaN.  [undefined] is passed as [None]. *)
Definition parseInt10 (s : option string) : option Z :=
  match s with
  | None => None
  | Some s =>
      let body := skip_spaces s in
      let '(neg, body) :=
        match body with
        | String "-" rest => (true, rest)
        | String "+" rest => (false, rest)
        | _ => (false, body)
        end in
      match take_digits body with
      | EmptyString => None
      | ds => Some (if neg : bool then - digits_value 0 ds else digits_value 0 ds)
      end
  end.

(** Decimal digits of a non-negative integer, for [String(n)]. *)
Fixpoint pos_digits (fuel : nat) (n : Z) (acc : string) : string :=
  match fuel with
  | O => acc
  | S fuel' =>
      let acc' := String (ascii_of_nat (Z.to_nat (48 + n mod 10))) acc in
      if n <? 10 then acc' else pos_digits fuel' (n / 10) acc'
  end.

(** [String(n)] for an integer-valued number below 10^21, where JavaScript
    prints plain decimal digits. *)
Definition number_to_string (n : Z) : string :=
  if n <? 0 then String "-" (pos_digits (S (Z.to_nat (Z.log2 (- n)))) (- n) EmptyString)
  else pos_digits (S (Z.to_nat (Z.log2 n))) n EmptyString.

Definition bool_to_string (b : bool) : string := if b then "true" else "false".

End JS.

(** ** JavaScript numbers that are not integers

    The cost estimates are the only values of the client computed in
    floating point.  They are kept as the IEEE 754 doubles the source
    computes, with the kernel's binary64 arithmetic (round to nearest, ties
    to even, as in JavaScript); a decimal literal denotes the nearest
    double. *)
Section Doubles.
Import PrimFloat.

(** The double of a positive integer, from its binary digits; every step is
    exact below 2^53. *)
Fixpoint Number_of_positive (p : positive) : float :=
  match p with
  | xH => 1
  | xO p' => 2 * Number_of_positive p'
  | xI p' => 2 * Number_of_positive p' + 1
  end%float.

(** An integer-valued number, such as the [length] of an array, as the
    double it is. *)
Definition Number_of_integer (z : Z) : float :=
  match z with
  | Z0 => 0
  | Zpos p => Number_of_positive p
  | Zneg p => - Number_of_positive p
  end%float.

End Doubles.

(** ** The platform's URL class

    [new URL(s)] and the accessors of the resulting object belong to the
    runtime, not to the repository: the development is parametric in them. *)
Record URL := mkURL {
  protocol : string;   (* scheme with the trailing colon, e.g. "https:" *)
  username : string;
  password : string;
  hostname : string;
  url_rest : string;   (* port, path and query as serialised after the host *)
  hash : string
}.

Class URLApi := {
  URL_parse : string -> option URL;   (* [None]: the constructor throws *)
  URL_toString : URL -> string
}.

(** ** security.ts *)

Definition FORBIDDEN_IP_RANGES : list string :=
  [ "127.0.0.0/8"; "10.0.0.0/8"; "172.16.0.0/12"; "192.168.0.0/16";
    "169.254.0.0/16"; "0.0.0.0/8"; "100.64.0.0/10"; "192.0.0.0/24";
    "192.0.2.0/24"; "198.51.100.0/24"; "203.0.113.0/24"; "224.0.0.0/4";
    "240.0.0.0/4"; "255.255.255.255/32" ].

Definition FORBIDDEN_HOSTNAMES : list string :=
  [ "metadata.google.internal"; "169.254.169.254"; "169.254.169.123";
    "metadata"; "metadata.internal" ].

Definition ALLOWED_PROTOCOLS : list string := [ "https:" ].

(** [Array.prototype.includes] on an array of strings. *)
Definition includes (xs : list string) (x : string) : bool :=
  existsb (String.eqb x) xs.

(** The regular expression [/^(\d{1,3})\.(\d{1,3})\.(\d{1,3})\.(\d{1,3})$/]
    followed by [match.slice(1).map(Number)]. *)
Definition octet_group (s : string) : bool :=
  JS.all_digits s && (1 <=? String.length s)%nat && (String.length s <=? 3)%nat.

Definition match_ipv4 (s : string) : option (list Z) :=
  match JS.split "." s with
  | [a; b; c; d] =>
      if octet_group a && octet_group b && octet_group c && octet_group d
      then Some (map (JS.digits_value 0) [a; b; c; d])
      else None
  | _ => None
  end.

(** [(o0 << 24) + (o1 << 16) + (o2 << 8) + o3] *)
Definition ip_to_int (octets : list Z) : Z :=
  match octets with
  | [o0; o1; o2; o3] => JS.shl o0 24 + JS.shl o1 16 + JS.shl o2 8 + o3
  | _ => 0
  end.

Definition isIPInRange (ipInt : Z) (range : string) : bool :=
  let parts := JS.split "/" range in
  let rangeIP := nth 0 parts "undefined" in
  let prefixLength := JS.parseInt10 (nth_error parts 1) in
  match prefixLength with
  | None => false
  | Some prefixLength =>
      if (prefixLength <? 0) || (32 <? prefixLength) then false
      else
        match match_ipv4 rangeIP with
        | None => false
        | Some rangeOctets =>
            let rangeIPInt := ip_to_int rangeOctets in
            let mask := JS.not (JS.shl 1 (32 - prefixLength) - 1) in
            JS.and ipInt mask =? JS.and rangeIPInt mask
        end
  end.

Definition isForbiddenIP (ip : string) : bool :=
  match match_ipv4 ip with
  | Some octets =>
      if existsb (fun octet => (octet <? 0) || (255 <? octet)) octets then true
      else existsb (isIPInRange (ip_to_int octets)) FORBIDDEN_IP_RANGES
  | None => false
  end.

Definition isValidUrl `{URLApi} (urlString : string) : bool :=
  match URL_parse urlString with
  | Some url =>
      if negb (includes ALLOWED_PROTOCOLS (protocol url)) then false
      else if includes FORBIDDEN_HOSTNAMES (hostname url) then false
      else if isForbiddenIP (hostname url) then false
      else true
  | None => false
  end.

(** [String(x)] of a possibly undefined string. *)
Definition ToString (x : option string) : string :=
  match x with Some s => s | None => "undefined" end.

(** [sanitizeUrl]: credentials and fragment removed; the argument itself is
    returned when it does not parse. *)
Definition sanitizeUrl `{URLApi} (urlString : option string) : option string :=
  match URL_parse (ToString urlString) with
  | Some url =>
      Some (URL_toString
              {| protocol := protocol url; username := ""; password := "";
                 hostname := hostname url; url_rest := url_rest url; hash := "" |})
  | None => urlString
  end.


(** ** errors.ts *)

Inductive WebSearchErrorCode :=
  | INVALID_PARAMETERS | API_ERROR | NETWORK_ERROR | RATE_LIMIT_EXCEEDED
  | QUOTA_EXCEEDED | SECURITY_ERROR | TIMEOUT_ERROR | INVALID_RESPONSE
  | CACHE_ERROR.

(** The string value of each enum member. *)
Definition code_string (c : WebSearchErrorCode) : string :=
  match c with
  | INVALID_PARAMETERS => "INVALID_PARAMETERS"
  | API_ERROR => "API_ERROR"
  | NETWORK_ERROR => "NETWORK_ERROR"
  | RATE_LIMIT_EXCEEDED => "RATE_LIMIT_EXCEEDED"
  | QUOTA_EXCEEDED => "QUOTA_EXCEEDED"
  | SECURITY_ERROR => "SECURITY_ERROR"
  | TIMEOUT_ERROR => "TIMEOUT_ERROR"
  | INVALID_RESPONSE => "INVALID_RESPONSE"
  | CACHE_ERROR => "CACHE_ERROR"
  end.

(** A thrown value, with the properties the code reads from it: an [Error]
    has only a message; a transport error may carry [code] and [response];
    a [WebSearchError] carries [code], [message] and [hint]. *)
Record JsError := mkJsError {
  err_code : option string;
  err_response : option (Z * string);   (* status, statusText *)
  err_message : string;
  err_hint : option string
}.

(** [new Error(message)] *)
Definition Error (message : string) : JsError :=
  {| err_code := None; err_response := None; err_message := message;
     err_hint := None |}.

Definition createWebSearchError
    (code : WebSearchErrorCode) (message : string) (hint : option string) : JsError :=
  {| err_code := Some (code_string code); err_response := None;
     err_message := message; err_hint := hint |}.

(** [Object.values(WebSearchErrorCode).includes(error.code)] *)
Definition isWebSearchError (error : JsError) : bool :=
  match err_code error with
  | Some c =>
      includes (map code_string
                  [INVALID_PARAMETERS; API_ERROR; NETWORK_ERROR; RATE_LIMIT_EXCEEDED;
                   QUOTA_EXCEEDED; SECURITY_ERROR; TIMEOUT_ERROR; INVALID_RESPONSE;
                   CACHE_ERROR]) c
  | None => false
  end.

Inductive Result (A : Type) :=
  | Ok (a : A)
  | Throw (e : JsError).
Arguments Ok {A} a.
Arguments Throw {A} e.

(** [haystack.includes(needle)] on strings. *)
Fixpoint str_includes (needle haystack : string) : bool :=
  String.prefix needle haystack ||
  match haystack with
  | EmptyString => false
  | String _ rest => str_includes needle rest
  end.

Definition code_is (error : JsError) (c : string) : bool :=
  match err_code error with Some c' => String.eqb c' c | None => false end.

Definition handleApiError (error : JsError) : JsError :=
  if code_is error "ENOTFOUND" || code_is error "EAI_AGAIN" then
    createWebSearchError NETWORK_ERROR
      "Network error occurred while connecting to the API"
      (Some "Check your internet connection and try again")
  else if code_is error "ETIMEDOUT" || code_is error "ESOCKETTIMEDOUT" then
    createWebSearchError TIMEOUT_ERROR
      "Request timed out while connecting to the API"
      (Some "The API is taking too long to respond. Try again later")
  else
    match err_response error with
    | Some (status, statusText) =>
        if status =? 400 then
          createWebSearchError INVALID_PARAMETERS
            "Invalid parameters sent to the API"
            (Some "Check your search parameters and try again")
        else if (status =? 401) || (status =? 403) then
          createWebSearchError API_ERROR "API authentication failed"
            (Some "Check your API key and permissions")
        else if status =? 429 then
          createWebSearchError RATE_LIMIT_EXCEEDED "Rate limit exceeded"
            (Some "Too many requests. Please wait before trying again")
        else if (status =? 500) || (status =? 502) || (status =? 503) || (status =? 504) then
          createWebSearchError API_ERROR "API service temporarily unavailable"
            (Some "The service is currently unavailable. Please try again later")
        else
          createWebSearchError API_ERROR
            ("API error: " +:+ JS.number_to_string status +:+ " " +:+ statusText)
            (Some "An unexpected error occurred with the API")
    | None =>
        if str_includes "quota" (err_message error) then
          createWebSearchError QUOTA_EXCEEDED "API quota exceeded"
            (Some "Your API quota has been exceeded. Check your plan or try again later")
        else
          createWebSearchError API_ERROR
            (if String.eqb (err_message error) "" then "An unknown error occurred"
             else err_message error)
            (Some "An unexpected error occurred. Please try again")
    end.

(** ** rate-limiter.ts *)

Record RateLimiter := mkRateLimiter {
  requests : list Z;
  limit : Z;
  windowMs : Z;
  retryAfterMs : Z
}.

(** [this.requests.filter(timestamp => now - timestamp < this.windowMs)] *)
Definition prune (now : Z) (rl : RateLimiter) : RateLimiter :=
  {| requests := List.filter (fun timestamp => now - timestamp <? windowMs rl) (requests rl);
     limit := limit rl; windowMs := windowMs rl; retryAfterMs := retryAfterMs rl |}.

Definition checkLimit (now : Z) (rl : RateLimiter) : bool * RateLimiter :=
  let rl' := prune now rl in
  (Z.of_nat (length (requests rl')) <? limit rl', rl').

Definition increment (now : Z) (rl : RateLimiter) : RateLimiter :=
  {| requests := (requests rl ++ [now])%list;
     limit := limit rl; windowMs := windowMs rl; retryAfterMs := retryAfterMs rl |}.

Definition reset (rl : RateLimiter) : RateLimiter :=
  {| requests := [];
     limit := limit rl; windowMs := windowMs rl; retryAfterMs := retryAfterMs rl |}.

(** ** cache.ts *)

Record CacheEntry (A : Type) := mkCacheEntry {
  data : A;
  timestamp : Z;
  ttl : Z
}.
Arguments mkCacheEntry {A}.
Arguments data {A}.
Arguments timestamp {A}.
Arguments ttl {A}.

Record Cache (A : Type) := mkCache {
  cache : gmap string (CacheEntry A);
  defaultTtl : Z
}.
Arguments mkCache {A}.
Arguments cache {A}.
Arguments defaultTtl {A}.


Definition Cache_get {A} (now : Z) (key : string) (c : Cache A) : option A * Cache A :=
  match cache c !! key with
  | None => (None, c)
  | Some entry =>
      if ttl entry <? now - timestamp entry
      then (None, {| cache := delete key (cache c); defaultTtl := defaultTtl c |})
      else (Some (data entry), c)
  end.

(** [ttl || this.defaultTtl]: an undefined or zero [ttl] is falsy. *)
Definition ttl_or_default (ttl : option Z) (dflt : Z) : Z :=
  match ttl with
  | Some t => if t =? 0 then dflt else t
  | None => dflt
  end.

Definition Cache_set {A} (now : Z) (key : string) (d : A) (ttl : option Z)
    (c : Cache A) : Cache A :=
  let entry := {| data := d; timestamp := now; ttl := ttl_or_default ttl (defaultTtl c) |} in
  {| cache := <[key := entry]> (cache c); defaultTtl := defaultTtl c |}.

Definition Cache_delete {A} (key : string) (c : Cache A) : Cache A :=
  {| cache := delete key (cache c); defaultTtl := defaultTtl c |}.

Definition Cache_clear {A} (c : Cache A) : Cache A :=
  {| cache := ∅; defaultTtl := defaultTtl c |}.

(** The body of the periodic sweep started by [startCleanupInterval]. *)
Definition Cache_cleanup {A} (now : Z) (c : Cache A) : Cache A :=
  {| cache := filter (fun kv => ¬ (ttl kv.2 < now - timestamp kv.2)) (cache c);
     defaultTtl := defaultTtl c |}.

(** ** types.ts *)

Record SearchResult := mkSearchResult {
  title : string;
  url : string;
  snippet : string;
  published_at : option string;
  source : option string;
  score : option Z
}.

(** An element of [clusters]: an opaque JSON value, kept as its text. *)
Definition Cluster := string.

(** [cost_estimate] is the only number of a response that is not an
    integer: it is kept as the double the source computes. *)
Record Meta := mkMeta {
  query : string;
  meta_top_k : Z;
  meta_time_range : string;
  cost_estimate : PrimFloat.float;
  cache_hit : bool;
  response_time : Z
}.

Record SearchWebResult := mkSearchWebResult {
  results : list SearchResult;
  meta : Meta;
  clusters : option (list Cluster);
  highlights : option (list string);
  citations : option (list SearchResult)
}.

Inductive TimeRange := any | day | week | month | year.

Definition TimeRange_string (t : TimeRange) : string :=
  match t with
  | any => "any" | day => "day" | week => "week" | month => "month" | year => "year"
  end.

Inductive Dedupe := none | domain | title_.

Definition Dedupe_string (d : Dedupe) : string :=
  match d with none => "none" | domain => "domain" | title_ => "title" end.

Inductive SonarModel :=
  | sonar | sonar_pro | sonar_reasoning | sonar_reasoning_pro | sonar_deep_research.

(** The parameter object shared by [searchWeb] and [generateAnswerWithSonar]
    ([top_k] is an integer here). *)
Record SearchParams := mkSearchParams {
  q : string;
  top_k : option Z;
  time_range : option TimeRange;
  site : option string;
  lang : option string;
  region : option string;
  safe_mode : option bool;
  include_snippets : option bool;
  operators : option (list string);
  exclude_sites : option (list string);
  from : option string;
  to : option string;
  dedupe : option Dedupe;
  aggregate : option bool;
  sonar_model : option SonarModel
}.

(** ** client.ts: pure helpers *)

(** A raw upstream result: every property may be missing. *)
Record RawResult := mkRawResult {
  raw_title : option string;
  raw_url : option string;
  raw_snippet : option string;
  raw_published_at : option string;
  raw_source : option string;
  raw_score : option Z
}.

(** [x || ''] for a possibly missing string. *)
Definition or_empty (x : option string) : string :=
  match x with Some s => s | None => "" end.

(** [x || null] for a possibly missing string: the empty string is falsy. *)
Definition or_null (x : option string) : option string :=
  match x with
  | Some s => if String.eqb s "" then None else Some s
  | None => None
  end.

Definition or_null_num (x : option Z) : option Z :=
  match x with
  | Some n => if n =? 0 then None else Some n
  | None => None
  end.

Definition nonempty (s : string) : bool := negb (String.eqb s "").

Definition normalizeResult `{URLApi} (result : RawResult) : SearchResult :=
  {| title := or_empty (raw_title result);
     url := or_empty (sanitizeUrl (raw_url result));
     snippet := or_empty (raw_snippet result);
     published_at := or_null (raw_published_at result);
     source := or_null (raw_source result);
     score := or_null_num (raw_score result) |}.

(** [results.map(...).filter(...)] on an array of objects. *)
Definition normalizeResults `{URLApi} (results : list RawResult) : list SearchResult :=
  List.filter (fun result => nonempty (title result) && nonempty (url result)
                             && isValidUrl (url result))
    (map normalizeResult results).

(** The key computed inside the filter callback of [deduplicateResults]. *)
Definition dedupe_key `{URLApi} (strategy : Dedupe) (result : SearchResult) : string :=
  match strategy with
  | domain =>
      match URL_parse (url result) with
      | Some u => hostname u
      | None => url result
      end
  | _ => title result
  end.

(** The filter of [deduplicateResults], with the set [seen] threaded through. *)
Fixpoint dedupe_filter `{URLApi} (strategy : Dedupe) (seen : gset string)
    (results : list SearchResult) : list SearchResult :=
  match results with
  | [] => []
  | result :: rest =>
      let key := dedupe_key strategy result in
      if decide (key ∈ seen) then dedupe_filter strategy seen rest
      else result :: dedupe_filter strategy ({[key]} ∪ seen) rest
  end.

Definition deduplicateResults `{URLApi} (results : list SearchResult)
    (strategy : Dedupe) : list SearchResult :=
  dedupe_filter strategy ∅ results.

Section Cost.
Import PrimFloat.
#[local] Set Warnings "-inexact-float".

(** [resultCount * 0.0001] *)
Definition calculateCost (resultCount : Z) : float :=
  (Number_of_integer resultCount * 0.0001)%float.

End Cost.

Definition createCacheKey (params : SearchParams) : string :=
  let keyParts : list (option string) :=
    [ Some (q params);
      JS.number_to_string <$> top_k params;
      TimeRange_string <$> time_range params;
      site params;
      lang params;
      region params;
      JS.bool_to_string <$> safe_mode params;
      JS.bool_to_string <$> include_snippets params;
      from params;
      to params;
      Dedupe_string <$> dedupe params ] in
  let keyParts :=
    match operators params with
    | Some ops => (keyParts ++ [Some (JS.join "," ops)])%list
    | None => keyParts
    end in
  let keyParts :=
    match exclude_sites params with
    | Some sites => (keyParts ++ [Some (JS.join "," sites)])%list
    | None => keyParts
    end in
  JS.join "|" (omap id keyParts).

(** ** The process state and the effects of the client

    [cache] and [rateLimiter] are the module-level singletons of client.ts.
    [Date.now()], the environment variables, the .env files and the
    transport are the outside world: the [k]-th clock reading, the outcome
    of the [k]-th request handed to the transport, and what [process.env]
    and the .env files hold are given by an environment. *)

Inductive Outcome (A : Type) :=
  | Resolved (a : A)        (* the promise resolves before the timer *)
  | Rejected (e : JsError)  (* the promise rejects before the timer *)
  | TimedOut.               (* the timer of [withTimeout] fires first *)
Arguments Resolved {A} a.
Arguments Rejected {A} e.
Arguments TimedOut {A}.

Record SearchPayload := mkSearchPayload {
  p_query : string;
  p_top_k : Z;
  p_time_range : string;
  p_safe_mode : bool;
  p_include_snippets : bool;
  p_site : option string;
  p_lang : option string;
  p_region : option string;
  p_from : option string;
  p_to : option string;
  p_exclude_sites : option (list string);
  p_dedupe : option Dedupe;
  p_aggregate : option bool
}.

Record SonarPayload := mkSonarPayload {
  sp_model : SonarModel;
  sp_query : string;
  sp_search_domain : string;
  sp_citations : string;
  sp_evidence : list SearchResult
}.

(** A request handed to [axios.post], with its bearer credential. *)
Inductive NetRequest :=
  | PostSearch (apiKey : string) (payload : SearchPayload)
  | PostSonar (apiKey : string) (payload : SonarPayload).

(** The body of a search response: [results] is an array of objects, or
    something on which [results.map] throws. *)
Record RawResponse := mkRawResponse {
  raw_results : option (list (option RawResult))
}.

Inductive Choice :=
  | ChoiceNull
  | ChoiceString (s : string)
  | ChoiceObject (content : option string).

Record RawCitation := mkRawCitation {
  c_title : option string;
  c_url : option string;
  c_snippet : option string
}.

(** The body of a Sonar response; a property that is not an array is [None],
    an array element that is [null] or of the wrong type is [None]. *)
Record SonarRaw := mkSonarRaw {
  s_choices : option (list Choice);
  s_answer : option string;
  s_citations : option (list (option RawCitation));
  s_highlights : option (list (option string));
  s_clusters : option (list Cluster)
}.

Record Env := mkEnv {
  clock : nat -> Z;
  search_api : nat -> Outcome RawResponse;
  sonar_api : nat -> Outcome (option SonarRaw);
  process_env : gmap string string;
    (* [process.env] *)
  dotenv : list (Result (gmap string string))
    (* for each path of [envPaths] at which a file exists, in that order:
       what [dotenv.parse] makes of the file, or what reading it throws *)
}.

(** ** utils/helpers.ts: [getEnv] *)

(** A configuration object, as the properties it has; a property whose
    value is [undefined] reads like one that is missing. *)
Definition EnvConfig := gmap string string.

(** [{ name: value, ... }] *)
Definition object_literal (props : list (string * option string)) : gmap string string :=
  foldr (fun prop obj => match prop.2 with
                         | Some value => <[prop.1 := value]> obj
                         | None => obj
                         end) ∅ props.

(** The loop over [envPaths]: [Object.assign(envConfig, env)] for each file
    that exists; a file that cannot be read ends the loop with its error. *)
Fixpoint assign_files (envConfig : gmap string string)
    (files : list (Result (gmap string string))) : Result (gmap string string) :=
  match files with
  | [] => Ok envConfig
  | Ok file :: rest => assign_files (file ∪ envConfig) rest
  | Throw e :: _ => Throw e
  end.

(** [envConfig] when the loop is done: [process.env] with the files laid
    over it. *)
Definition envConfig (env : Env) : Result (gmap string string) :=
  assign_files (process_env env) (dotenv env).

(** The object literal that [getEnv] returns. *)
Definition getEnv_result (envConfig : gmap string string) : EnvConfig :=
  object_literal
    [ ("GLM_API_KEY", envConfig !! "GLM_API_KEY");
      ("GLM_IMAGE_MODEL", envConfig !! "GLM_IMAGE_MODEL");
      ("GLM_VIDEO_MODEL", envConfig !! "GLM_VIDEO_MODEL");
      ("GLM_GENERATION_MODEL", envConfig !! "GLM_GENERATION_MODEL");
      ("SIYUAN_API_TOKEN", envConfig !! "SIYUAN_API_TOKEN");
      ("SIYUAN_API_BASE",
       Some (match or_null (envConfig !! "SIYUAN_API_BASE") with
             | Some base => base
             | None => "http://127.0.0.1:6806"
             end)) ].

Definition getEnv (env : Env) : Result EnvConfig :=
  match envConfig env with
  | Throw e => Throw e
  | Ok envConfig =>
      match or_null (envConfig !! "GLM_API_KEY") with
      | None => Throw (Error "GLM_API_KEY environment variable is required")
      | Some _ => Ok (getEnv_result envConfig)
      end
  end.

(** [env.PERPLEXITY_API_KEY] and [getEnv().WEB_SEARCH_TIMEOUT_MS]: property
    reads on the object that [getEnv] returns. *)
Definition PERPLEXITY_API_KEY (cfg : EnvConfig) : option string :=
  cfg !! "PERPLEXITY_API_KEY".

Definition WEB_SEARCH_TIMEOUT_MS (cfg : EnvConfig) : option string :=
  cfg !! "WEB_SEARCH_TIMEOUT_MS".

(** ** The constructors of the two singletons

    Both read their configuration with [getEnv(name)].  [getEnv] has no
    parameter, so the name is ignored and the call yields the whole
    configuration object (or throws); the object is truthy, so the default
    after [||] is not taken, and [parseInt] converts the object with
    ToString. *)

(** ToString of a plain object. *)
Definition Object_toString (obj : EnvConfig) : string := "[object Object]".

(** [parseInt(getEnv(name) || dflt, 10)] *)
Definition getEnv_number (env : Env) (name dflt : string) : Result (option Z) :=
  match getEnv env with
  | Ok cfg => Ok (JS.parseInt10 (Some (Object_toString cfg)))
  | Throw e => Throw e
  end.

(** [if (isNaN(x) || x <= 0) x = fallback] *)
Definition positive_or (x : option Z) (fallback : Z) : Z :=
  match x with
  | Some n => if n <=? 0 then fallback else n
  | None => fallback
  end.

Definition RateLimiter_new (env : Env) : Result RateLimiter :=
  match getEnv_number env "WEB_SEARCH_RATE_LIMIT" "5" with
  | Throw e => Throw e
  | Ok limit =>
      match getEnv_number env "WEB_SEARCH_RATE_WINDOW_MS" "1000" with
      | Throw e => Throw e
      | Ok windowMs =>
          match getEnv_number env "WEB_SEARCH_RETRY_AFTER_MS" "1000" with
          | Throw e => Throw e
          | Ok retryAfterMs =>
              Ok {| requests := [];
                    limit := positive_or limit 5;
                    windowMs := positive_or windowMs 1000;
                    retryAfterMs := positive_or retryAfterMs 1000 |}
          end
      end
  end.


Record World := mkWorld {
  w_cache : Cache SearchWebResult;
  w_limiter : RateLimiter;
  w_ticks : nat;              (* clock readings taken so far *)
  w_net : list NetRequest     (* requests issued so far, oldest first *)
}.

(** State that survives a throw, and a result or a thrown value. *)
Definition M (A : Type) : Type := World -> Result A * World.

Definition ret {A} (a : A) : M A := fun w => (Ok a, w).
Definition throw {A} (e : JsError) : M A := fun w => (Throw e, w).
Definition bind {A B} (m : M A) (k : A -> M B) : M B :=
  fun w => match m w with
           | (Ok a, w') => k a w'
           | (Throw e, w') => (Throw e, w')
           end.

Declare Scope effect_scope.
Delimit Scope effect_scope with eff.
Notation "x <- m ;; k" := (bind m (fun x => k))
  (at level 100, m at next level, right associativity) : effect_scope.
Notation "m ;;; k" := (bind m (fun _ => k))
  (at level 100, right associativity) : effect_scope.

(** [try { m } catch (error) { throw h(error) }] *)
Definition rethrow {A} (m : M A) (h : JsError -> JsError) : M A :=
  fun w => match m w with
           | (Ok a, w') => (Ok a, w')
           | (Throw e, w') => (Throw (h e), w')
           end.

Definition lift {A} (r : Result A) : M A := fun w => (r, w).

Section Effects.
Context `{URLApi} (env : Env).
Local Open Scope effect_scope.

Definition Date_now : M Z :=
  fun w => (Ok (clock env (w_ticks w)),
            {| w_cache := w_cache w; w_limiter := w_limiter w;
               w_ticks := S (w_ticks w); w_net := w_net w |}).

Definition rateLimiter_checkLimit : M bool :=
  now <- Date_now;;
  fun w => let '(allowed, rl) := checkLimit now (w_limiter w) in
           (Ok allowed,
            {| w_cache := w_cache w; w_limiter := rl;
               w_ticks := w_ticks w; w_net := w_net w |}).

Definition rateLimiter_increment : M unit :=
  now <- Date_now;;
  fun w => (Ok tt,
            {| w_cache := w_cache w; w_limiter := increment now (w_limiter w);
               w_ticks := w_ticks w; w_net := w_net w |}).

(** [cache.get(key)]: the clock is read only when an entry is present. *)
Definition cache_get (key : string) : M (option SearchWebResult) :=
  fun w => match cache (w_cache w) !! key with
           | None => (Ok None, w)
           | Some _ =>
               (now <- Date_now;;
                fun w => let '(r, c) := Cache_get now key (w_cache w) in
                         (Ok r,
                          {| w_cache := c; w_limiter := w_limiter w;
                             w_ticks := w_ticks w; w_net := w_net w |})) w
           end.

Definition cache_set (key : string) (d : SearchWebResult) : M unit :=
  now <- Date_now;;
  fun w => (Ok tt,
            {| w_cache := Cache_set now key d None (w_cache w);
               w_limiter := w_limiter w;
               w_ticks := w_ticks w; w_net := w_net w |}).

(** [withTimeout(operation, timeoutMs)]: [timeoutMs] is NaN when [None]. *)
Definition withTimeout {A} (operation : M (Outcome A)) (timeoutMs : option Z) : M A :=
  outcome <- operation;;
  match outcome with
  | Resolved result => ret result
  | Rejected error => throw error
  | TimedOut =>
      throw (createWebSearchError TIMEOUT_ERROR
               ("Operation timed out after "
                +:+ match timeoutMs with
                    | Some t => JS.number_to_string t
                    | None => "NaN"
                    end +:+ "ms")
               (Some "Try again later or check your network connection"))
  end.

(** The loop of [withRetry]: [remaining] further attempts after this one.
    The back-off sleeps between attempts only let time pass. *)
Fixpoint retry_loop {A} (operation : M A) (remaining : nat) : M A :=
  fun w => match operation w with
           | (Ok a, w') => (Ok a, w')
           | (Throw error, w') =>
               match remaining with
               | O => (Throw error, w')
               | S remaining' => retry_loop operation remaining' w'
               end
           end.

Definition withRetry {A} (operation : M A) (maxRetries : nat) : M A :=
  retry_loop operation maxRetries.

(** [parseInt(getEnv().WEB_SEARCH_TIMEOUT_MS || '10000', 10)] *)
Definition request_timeout : M (option Z) :=
  cfg <- lift (getEnv env);;
  ret (JS.parseInt10
         (Some match WEB_SEARCH_TIMEOUT_MS cfg with
               | Some s => if String.eqb s "" then "10000" else s
               | None => "10000"
               end)).

Definition axios_post_search (apiKey : string) (payload : SearchPayload)
  : M (Outcome RawResponse) :=
  fun w => (Ok (search_api env (length (w_net w))),
            {| w_cache := w_cache w; w_limiter := w_limiter w;
               w_ticks := w_ticks w;
               w_net := (w_net w ++ [PostSearch apiKey payload])%list |}).

Definition axios_post_sonar (apiKey : string) (payload : SonarPayload)
  : M (Outcome (option SonarRaw)) :=
  fun w => (Ok (sonar_api env (length (w_net w))),
            {| w_cache := w_cache w; w_limiter := w_limiter w;
               w_ticks := w_ticks w;
               w_net := (w_net w ++ [PostSonar apiKey payload])%list |}).

Definition makePerplexityRequest (apiKey : string) (payload : SearchPayload)
  : M RawResponse :=
  rethrow
    (timeout <- request_timeout;;
     withRetry (withTimeout (axios_post_search apiKey payload) timeout) 2)
    handleApiError.


End Effects.

(** [x || y] where [x] is an array: an array, even an empty one, is truthy. *)
Definition array_or {A} (x y : list A) : list A := x.

(** [response.results] used as an array of objects; [map] or its callback
    throws a TypeError otherwise. *)
Definition results_array (response : RawResponse) : Result (list RawResult) :=
  match raw_results response with
  | Some items =>
      match mapM id items with
      | Some rs => Ok rs
      | None => Throw (Error "Cannot read properties of null (reading 'title')")
      end
  | None => Throw (Error "Cannot read properties of undefined (reading 'map')")
  end.

Definition with_cache_hit (cachedResult : SearchWebResult) : SearchWebResult :=
  {| results := results cachedResult;
     meta := {| query := query (meta cachedResult);
                meta_top_k := meta_top_k (meta cachedResult);
                meta_time_range := meta_time_range (meta cachedResult);
                cost_estimate := cost_estimate (meta cachedResult);
                cache_hit := true;
                response_time := response_time (meta cachedResult) |};
     clusters := clusters cachedResult;
     highlights := highlights cachedResult;
     citations := citations cachedResult |}.

(** [params.top_k || 10] *)
Definition top_k_or_10 (params : SearchParams) : Z :=
  match top_k params with
  | Some k => if k =? 0 then 10 else k
  | None => 10
  end.

(** [params.time_range || 'any'] *)
Definition time_range_or_any (params : SearchParams) : string :=
  match time_range params with
  | Some t => TimeRange_string t
  | None => "any"
  end.

(** [flag !== false] *)
Definition not_false (flag : option bool) : bool :=
  match flag with Some false => false | _ => true end.

Definition build_query (params : SearchParams) : string :=
  match operators params with
  | Some (op :: ops) => q params +:+ " " +:+ JS.join " " (op :: ops)
  | _ => q params
  end.

Definition build_payload (params : SearchParams) : SearchPayload :=
  {| p_query := build_query params;
     p_top_k := top_k_or_10 params;
     p_time_range := time_range_or_any params;
     p_safe_mode := not_false (safe_mode params);
     p_include_snippets := not_false (include_snippets params);
     p_site := or_null (site params);
     p_lang := or_null (lang params);
     p_region := or_null (region params);
     p_from := or_null (from params);
     p_to := or_null (to params);
     p_exclude_sites := match exclude_sites params with
                        | Some (s :: ss) => Some (s :: ss)
                        | _ => None
                        end;
     p_dedupe := dedupe params;
     p_aggregate := aggregate params |}.

(** ** client.ts: [searchWeb] *)

Section Client.
Context `{URLApi} (env : Env).
Local Open Scope effect_scope.

(** The part of [searchWeb] after the credential has been read. *)
Definition searchWeb_fetch (params : SearchParams) (cacheKey apiKey : string)
  : M SearchWebResult :=
  let payload := build_payload params in
  startTime <- Date_now env;;
  response <- makePerplexityRequest env apiKey payload;;
  endTime <- Date_now env;;
  let responseTime := endTime - startTime in
  rawResults <- lift (results_array response);;
  let normalizedResults := normalizeResults rawResults in
  let finalResults :=
    match dedupe params with
    | Some none | None => normalizedResults
    | Some strategy => deduplicateResults normalizedResults strategy
    end in
  let result :=
    {| results := finalResults;
       meta := {| query := q params;
                  meta_top_k := top_k_or_10 params;
                  meta_time_range := time_range_or_any params;
                  cost_estimate := calculateCost (Z.of_nat (length normalizedResults));
                  cache_hit := false;
                  response_time := responseTime |};
       clusters := None; highlights := None; citations := None |} in
  cache_set env cacheKey result;;;
  rateLimiter_increment env;;;
  ret result.

Definition searchWeb (params : SearchParams) : M SearchWebResult :=
  allowed <- rateLimiter_checkLimit env;;
  if negb allowed then throw (Error "Rate limit exceeded. Please try again later.")
  else
    let cacheKey := createCacheKey params in
    cachedResult <- cache_get env cacheKey;;
    match cachedResult with
    | Some cachedResult => ret (with_cache_hit cachedResult)
    | None =>
        cfg <- lift (getEnv env);;
        match or_null (PERPLEXITY_API_KEY cfg) with
        | None => throw (Error "PERPLEXITY_API_KEY is not configured")
        | Some apiKey => searchWeb_fetch params cacheKey apiKey
        end
    end.

End Client.

(** ** sonar-client.ts *)

Record NormalizedSonar := mkNormalizedSonar {
  n_answer : string;
  n_clusters : list Cluster;
  n_highlights : list string;
  n_citations : list SearchResult
}.

Definition normalizeCitation (citation : RawCitation) : SearchResult :=
  {| title := or_empty (c_title citation);
     url := or_empty (c_url citation);
     snippet := or_empty (c_snippet citation);
     published_at := None; source := None; score := None |}.

(** The answer text: first choice of a non-empty [choices] array, else the
    flat [answer] property.  Reading [message] of a null choice throws. *)
Definition extract_answer (sonarResult : SonarRaw) : Result string :=
  match s_choices sonarResult with
  | Some (choice :: _) =>
      match choice with
      | ChoiceNull => Throw (Error "Cannot read properties of null (reading 'message')")
      | ChoiceString s => Ok s
      | ChoiceObject content => Ok (or_empty (or_null content))
      end
  | _ => Ok (or_empty (or_null (s_answer sonarResult)))
  end.

Definition normalizeSonarResults (sonarResult : option SonarRaw) : Result NormalizedSonar :=
  match sonarResult with
  | None =>
      Ok {| n_answer := ""; n_clusters := []; n_highlights := []; n_citations := [] |}
  | Some sonarResult =>
      match extract_answer sonarResult with
      | Throw e => Throw e
      | Ok answer =>
          let citations :=
            match s_citations sonarResult with
            | Some cs =>
                match mapM id cs with
                | Some cs => Ok (map normalizeCitation cs)
                | None => Throw (Error "Cannot read properties of null (reading 'title')")
                end
            | None => Ok []
            end in
          match citations with
          | Throw e => Throw e
          | Ok citations =>
              let highlights :=
                match s_highlights sonarResult with
                | Some hs => omap id hs
                | None => []
                end in
              let clusters :=
                match s_clusters sonarResult with
                | Some cl => cl
                | None => []
                end in
              Ok {| n_answer := answer; n_clusters := clusters;
                    n_highlights := highlights; n_citations := citations |}
          end
      end
  end.

Section SonarCost.
Import PrimFloat.
#[local] Set Warnings "-inexact-float".

(** [baseCost + (evidenceCount * 0.001)] *)
Definition calculateSonarCost (model : SonarModel) (evidenceCount : Z) : float :=
  let baseCost :=
    match model with
    | sonar_pro => 0.02
    | sonar_reasoning => 0.03
    | sonar_reasoning_pro => 0.04
    | sonar_deep_research => 0.05
    | sonar => 0.01
    end%float in
  (baseCost + (Number_of_integer evidenceCount * 0.001))%float.

End SonarCost.

Section Sonar.
Context `{URLApi} (env : Env).
Local Open Scope effect_scope.

Definition makeSonarRequest (apiKey : string) (model : SonarModel)
    (params : SearchParams) (evidence : list SearchResult) : M (option SonarRaw) :=
  rethrow
    (timeout <- request_timeout env;;
     let sonarPayload :=
       {| sp_model := model; sp_query := q params;
          sp_search_domain := "scholarly"; sp_citations := "markdown";
          sp_evidence := evidence |} in
     withRetry (withTimeout (axios_post_sonar env apiKey sonarPayload) timeout) 2)
    handleApiError.

Definition generateAnswerWithSonar (params : SearchParams) : M SearchWebResult :=
  searchResults <- searchWeb env params;;
  cfg <- lift (getEnv env);;
  match or_null (PERPLEXITY_API_KEY cfg) with
  | None => throw (Error "PERPLEXITY_API_KEY is not configured")
  | Some apiKey =>
      match sonar_model params with
      | None => throw (Error "Sonar model is required for sonar_answer engine")
      | Some model =>
          startTime <- Date_now env;;
          sonarResult <- makeSonarRequest apiKey model params (results searchResults);;
          endTime <- Date_now env;;
          let responseTime := endTime - startTime in
          normalizedResults <- lift (normalizeSonarResults sonarResult);;
          ret {| results := results searchResults;
                 meta := {| query := q params;
                            meta_top_k := top_k_or_10 params;
                            meta_time_range := time_range_or_any params;
                            cost_estimate :=
                              calculateSonarCost model
                                (Z.of_nat (length (results searchResults)));
                            cache_hit := false;
                            response_time :=
                              response_time (meta searchResults) + responseTime |};
                 clusters := Some (array_or (n_clusters normalizedResults) []);
                 highlights := Some (array_or (n_highlights normalizedResults) []);
                 citations := Some (array_or (n_citations normalizedResults)
                                             (results searchResults)) |}
      end
  end.

End Sonar.

(** ** A reference URL parser for [scheme://authority/path?query#fragment]

    Enough of the platform's parser to run the client on concrete inputs.
    The scheme is everything before the first [:], which must be followed
    by [//]; the fragment starts at the first [#]; the authority ends at the
    first [/] or [?]; credentials end at [@]; a port follows the host after
    [:]; scheme and host are lower-cased, and an empty path is [/].  It is
    not the platform's parser on other inputs: IPv6 literals, escapes,
    numeric hosts in other notations, default ports and dot segments are
    not treated. *)
Module RefURL.

Fixpoint break_at (sep : ascii) (s : string) : option (string * string) :=
  match s with
  | EmptyString => None
  | String c rest =>
      if Ascii.eqb c sep then Some (EmptyString, rest)
      else match break_at sep rest with
           | Some (l, r) => Some (String c l, r)
           | None => None
           end
  end.

(** The part before the first character that satisfies [stop], and the part
    from that character on. *)
Fixpoint span_until (stop : ascii -> bool) (s : string) : string * string :=
  match s with
  | EmptyString => (EmptyString, EmptyString)
  | String c rest =>
      if stop c then (EmptyString, s)
      else let '(l, r) := span_until stop rest in (String c l, r)
  end.

Definition lower (c : ascii) : ascii :=
  let n := nat_of_ascii c in
  if (65 <=? n)%nat && (n <=? 90)%nat then ascii_of_nat (n + 32) else c.

Fixpoint lowercase (s : string) : string :=
  match s with
  | EmptyString => EmptyString
  | String c rest => String (lower c) (lowercase rest)
  end.

Definition parse (s : string) : option URL :=
  match break_at ":" s with
  | Some (scheme, String "/" (String "/" after)) =>
      let '(body, frag) := span_until (Ascii.eqb "#") after in
      let '(authority, rest) :=
        span_until (fun c => Ascii.eqb c "/" || Ascii.eqb c "?") body in
      let rest := match rest with
                  | String "/" _ => rest
                  | _ => String "/" rest
                  end in
      let '(userinfo, hostport) :=
        match break_at "@" authority with
        | Some (u, h) => (u, h)
        | None => (EmptyString, authority)
        end in
      let '(user, pass) :=
        match break_at ":" userinfo with
        | Some (u, p) => (u, p)
        | None => (userinfo, EmptyString)
        end in
      let '(host, port) :=
        match break_at ":" hostport with
        | Some (h, p) => (h, String ":" p)
        | None => (hostport, EmptyString)
        end in
      if String.eqb host "" then None
      else Some {| protocol := lowercase scheme +:+ ":"; username := user;
                   password := pass; hostname := lowercase host;
                   url_rest := port +:+ rest; hash := frag |}
  | _ => None
  end.

Definition toString (u : URL) : string :=
  protocol u +:+ "//"
  +:+ (if String.eqb (username u) "" then ""
       else username u
            +:+ (if String.eqb (password u) "" then "" else ":" +:+ password u)
            +:+ "@")
  +:+ hostname u +:+ url_rest u +:+ hash u.

Definition api : URLApi := {| URL_parse := parse; URL_toString := toString |}.

End RefURL.

(** ** A sequence of accepted-and-incremented calls

    Each call asks [checkLimit] at its first time and, when admitted,
    records itself with [increment] at its second time, as [searchWeb]
    does around a successful request. *)
Fixpoint accept_calls (calls : list (Z * Z)) (rl : RateLimiter)
  : list bool * RateLimiter :=
  match calls with
  | [] => ([], rl)
  | (tcheck, tincr) :: rest =>
      let '(ok, rl1) := checkLimit tcheck rl in
      let rl2 := if ok then increment tincr rl1 else rl1 in
      let '(oks, rl3) := accept_calls rest rl2 in
      (ok :: oks, rl3)
  end.

(** The first element of a list whose dedupe key is [k]. *)
Definition first_with_key `{URLApi} (strategy : Dedupe) (k : string)
    (l : list SearchResult) : option SearchResult :=
  List.find (fun r => String.eqb (dedupe_key strategy r) k) l.

(** The first element of a list that a function maps to [k]. *)
Definition first_by (key : SearchResult -> string) (k : string)
    (l : list SearchResult) : option SearchResult :=
  List.find (fun r => String.eqb (key r) k) l.

(** [t] lies in the window of length [w] that starts at [lo]. *)
Definition in_window (lo w t : Z) : Prop := lo <= t < lo + w.

(** ** Relations between the world before and after an effect *)

(** The effect leaves a relation [R] between the world it starts in and the
    world it ends in, whether it returns or throws. *)
Definition preserves {A} (R : World -> World -> Prop) (m : M A) : Prop :=
  forall w, R w (snd (m w)).

(** Cache and rate limiter are untouched. *)
Definition same_store (w w' : World) : Prop :=
  w_cache w' = w_cache w /\ w_limiter w' = w_limiter w.

(** The world after [checkLimit] has read the clock and pruned. *)
Definition after_check (env : Env) (w : World) : World :=
  {| w_cache := w_cache w;
     w_limiter := prune (clock env (w_ticks w)) (w_limiter w);
     w_ticks := S (w_ticks w); w_net := w_net w |}.

(** What the credential check of [searchWeb] and [generateAnswerWithSonar]
    throws when the object has no [PERPLEXITY_API_KEY]; the error of
    [getEnv] itself when that throws. *)
Definition missing_credential (env : Env) : JsError :=
  match getEnv env with
  | Ok _ => Error "PERPLEXITY_API_KEY is not configured"
  | Throw e => e
  end.

(** The world after [cache.get] has read the clock, found the entry under
    [key] expired and removed it. *)
Definition evicted (key : string) (w : World) : World :=
  {| w_cache := Cache_delete key (w_cache w); w_limiter := w_limiter w;
     w_ticks := S (w_ticks w); w_net := w_net w |}.

(** ** rate-limiter.ts: waiting time and status *)

(** A number that may be [Infinity], as [Math.min()] of no arguments is. *)
Inductive ExtNum :=
  | Finite (z : Z)
  | Infinity.

(** [Math.min(...xs)] *)
Definition Math_min (xs : list Z) : ExtNum :=
  match xs with
  | [] => Infinity
  | x :: rest => Finite (fold_right Z.min x rest)
  end.

Definition getTimeToWait (now : Z) (rl : RateLimiter) : ExtNum * RateLimiter :=
  let rl' := prune now rl in
  if Z.of_nat (length (requests rl')) <? limit rl' then (Finite 0, rl')
  else
    match Math_min (requests rl') with
    | Finite oldestRequest =>
        let waitTime := oldestRequest + windowMs rl' - now in
        (Finite (Z.max waitTime (retryAfterMs rl')), rl')
    | Infinity => (Infinity, rl')
    end.

Record Status := mkStatus {
  current : nat;
  status_limit : Z;
  status_windowMs : Z;
  isAllowed : bool;
  timeToWait : ExtNum
}.

(** [getStatus]: the clock is read once by [getStatus] itself ([now]) and
    once more by the [getTimeToWait] it calls ([now']); [current] and
    [isAllowed] are taken before that second pruning. *)
Definition getStatus (now now' : Z) (rl : RateLimiter) : Status * RateLimiter :=
  let rl1 := prune now rl in
  let '(wait, rl2) := getTimeToWait now' rl1 in
  ({| current := length (requests rl1);
      status_limit := limit rl1;
      status_windowMs := windowMs rl1;
      isAllowed := Z.of_nat (length (requests rl1)) <? limit rl1;
      timeToWait := wait |}, rl2).

(** ** cache.ts: statistics *)

Definition Cache_getStats {A} (c : Cache A) : nat * Z :=
  (size (cache c), defaultTtl c).

(** An entry is expired at [now] when its age exceeds its own [ttl]. *)
Definition expired {A} (now : Z) (entry : CacheEntry A) : Prop :=
  ttl entry < now - timestamp entry.

(** ** security.ts: addresses as numbers *)

(** The address [a.b.c.d] as an unsigned 32-bit number. *)
Definition ip_value (octets : list Z) : Z :=
  match octets with
  | [a; b; c; d] => a * 2 ^ 24 + b * 2 ^ 16 + c * 2 ^ 8 + d
  | _ => 0
  end.

Definition valid_octets (octets : list Z) : Prop :=
  length octets = 4%nat /\ Forall (fun o => 0 <= o <= 255) octets.

(** The two parts of a range string as [isIPInRange] reads them: the
    octets of the text before the first [/] and the number after it. *)
Definition cidr_parts (range : string) : option (list Z) * option Z :=
  (match_ipv4 (nth 0 (JS.split "/" range) "undefined"),
   JS.parseInt10 (nth_error (JS.split "/" range) 1)).

(** The ranges listed in [FORBIDDEN_IP_RANGES], octet by octet. *)
Definition reserved_address (a b c d : Z) : Prop :=
  a = 127 \/ a = 10 \/ (a = 172 /\ 16 <= b <= 31) \/ (a = 192 /\ b = 168)
  \/ (a = 169 /\ b = 254) \/ a = 0 \/ (a = 100 /\ 64 <= b <= 127)
  \/ (a = 192 /\ b = 0 /\ c = 0) \/ (a = 192 /\ b = 0 /\ c = 2)
  \/ (a = 198 /\ b = 51 /\ c = 100) \/ (a = 203 /\ b = 0 /\ c = 113)
  \/ 224 <= a.

(** ** errors.ts: the values thrown by the retry and timeout layer *)

(** The error with which [withTimeout] rejects when its timer fires. *)
Definition timeout_error (timeoutMs : option Z) : JsError :=
  createWebSearchError TIMEOUT_ERROR
    ("Operation timed out after "
     +:+ match timeoutMs with
         | Some t => JS.number_to_string t
         | None => "NaN"
         end +:+ "ms")
    (Some "Try again later or check your network connection").

(** What an attempt that did not resolve throws. *)
Definition attempt_error {A} (timeoutMs : option Z) (outcome : Outcome A) : option JsError :=
  match outcome with
  | Resolved _ => None
  | Rejected e => Some e
  | TimedOut => Some (timeout_error timeoutMs)
  end.

(** The timeout that [makePerplexityRequest] and [makeSonarRequest] read
    from a configuration. *)
Definition configured_timeout (cfg : EnvConfig) : option Z :=
  JS.parseInt10
    (Some match WEB_SEARCH_TIMEOUT_MS cfg with
          | Some s => if String.eqb s "" then "10000" else s
          | None => "10000"
          end).

(** [s] contains the character [c]. *)
Fixpoint has_char (c : ascii) (s : string) : bool :=
  match s with
  | EmptyString => false
  | String x rest => Ascii.eqb x c || has_char c rest
  end.

(** The world after further requests have been handed to the transport. *)
Definition sent (w : World) (reqs : list NetRequest) : World :=
  {| w_cache := w_cache w; w_limiter := w_limiter w; w_ticks := w_ticks w;
     w_net := (w_net w ++ reqs)%list |}.

(** ** client.ts: what a normalised result satisfies *)

(** Title and URL are present and the URL passes the security filter. *)
Definition well_formed_result `{URLApi} (r : SearchResult) : Prop :=
  title r <> "" /\ url r <> "" /\ isValidUrl (url r) = true.

(** The world after one clock reading. *)
Definition ticked (w : World) : World :=
  {| w_cache := w_cache w; w_limiter := w_limiter w;
     w_ticks := S (w_ticks w); w_net := w_net w |}.

(** ** Worlds with an unreliable upstream *)
Module Outages.

(** The first two requests time out, every later one is answered; the
    process environment sets a timeout of 2500 ms. *)
Definition env_flaky : Env :=
  {| clock := fun k => 1000 + 10 * Z.of_nat k;
     search_api := fun k => if (k <? 2)%nat then TimedOut
                            else Resolved {| raw_results := Some [] |};
     sonar_api := fun k => if (k <? 2)%nat then TimedOut else Resolved None;
     process_env := {[ "GLM_API_KEY" := "glm-key"; "WEB_SEARCH_TIMEOUT_MS" := "2500" ]};
     dotenv := [] |}.

(** No request is ever answered in time. *)
Definition env_slow : Env :=
  {| clock := fun k => 1000 + 10 * Z.of_nat k;
     search_api := fun _ => TimedOut;
     sonar_api := fun _ => TimedOut;
     process_env := {[ "GLM_API_KEY" := "glm-key" ]};
     dotenv := [] |}.

Definition empty_world : World :=
  {| w_cache := {| cache := ∅; defaultTtl := 1800000 |};
     w_limiter := {| requests := []; limit := 5; windowMs := 1000; retryAfterMs := 1000 |};
     w_ticks := 0; w_net := [] |}.

End Outages.

(** ** Parameter objects that differ in one property *)

Definition set_aggregate (params : SearchParams) (a : option bool) : SearchParams :=
  {| q := q params; top_k := top_k params; time_range := time_range params;
     site := site params; lang := lang params; region := region params;
     safe_mode := safe_mode params; include_snippets := include_snippets params;
     operators := operators params; exclude_sites := exclude_sites params;
     from := from params; to := to params; dedupe := dedupe params;
     aggregate := a; sonar_model := sonar_model params |}.

Definition set_top_k (params : SearchParams) (k : option Z) : SearchParams :=
  {| q := q params; top_k := k; time_range := time_range params;
     site := site params; lang := lang params; region := region params;
     safe_mode := safe_mode params; include_snippets := include_snippets params;
     operators := operators params; exclude_sites := exclude_sites params;
     from := from params; to := to params; dedupe := dedupe params;
     aggregate := aggregate params; sonar_model := sonar_model params |}.

(** ** web-search.ts and advanced-web-search.ts: the tool handlers *)

Inductive Engine := raw_search | sonar_answer.

Record AdvancedInput := mkAdvancedInput {
  adv_params : SearchParams;
  engine : option Engine
}.

(** What the handlers take from libraries and the runtime: the [parse] of
    their zod schemas (which throws on invalid input), [JSON.stringify] with
    its indentation, and the string a thrown value turns into inside a
    template literal. *)
Class ToolRuntime := {
  schema_parse : SearchParams -> Result SearchParams;
  advanced_schema_parse : AdvancedInput -> Result AdvancedInput;
  JSON_stringify : SearchWebResult -> string;
  String_of_thrown : JsError -> string
}.

(** [{ content: [{ type: 'text', text }] }] *)
Record ToolResponse := mkToolResponse { content_text : string }.

Definition createErrorResponse (message : string) : ToolResponse :=
  {| content_text := message |}.

Definition createSuccessResponse `{ToolRuntime} (result : SearchWebResult) : ToolResponse :=
  {| content_text := JSON_stringify result |}.

(** The end of both handlers: the awaited call wrapped by the [catch]. *)
Definition respond `{ToolRuntime} (prefix : string)
    (outcome : Result SearchWebResult * World) : ToolResponse * World :=
  match outcome with
  | (Ok result, w') => (createSuccessResponse result, w')
  | (Throw error, w') =>
      (createErrorResponse (prefix +:+ String_of_thrown error), w')
  end.

Definition performWebSearch `{URLApi} `{ToolRuntime} (env : Env) (params : SearchParams)
  : World -> ToolResponse * World :=
  fun w =>
    let failed error :=
      (createErrorResponse ("Error performing web search: " +:+ String_of_thrown error), w) in
    match schema_parse params with
    | Throw error => failed error
    | Ok validatedParams =>
        match getEnv env with
        | Throw error => failed error
        | Ok cfg =>
            match or_null (PERPLEXITY_API_KEY cfg) with
            | None =>
                (createErrorResponse
                   "PERPLEXITY_API_KEY is not configured in environment variables", w)
            | Some _ =>
                respond "Error performing web search: " (searchWeb env validatedParams w)
            end
        end
    end.

Definition performAdvancedWebSearch `{URLApi} `{ToolRuntime} (env : Env)
    (params : AdvancedInput) : World -> ToolResponse * World :=
  fun w =>
    let failed error :=
      (createErrorResponse
         ("Error performing advanced web search: " +:+ String_of_thrown error), w) in
    match advanced_schema_parse params with
    | Throw error => failed error
    | Ok validatedParams =>
        match getEnv env with
        | Throw error => failed error
        | Ok cfg =>
            match or_null (PERPLEXITY_API_KEY cfg) with
            | None =>
                (createErrorResponse
                   "PERPLEXITY_API_KEY is not configured in environment variables", w)
            | Some _ =>
                respond "Error performing advanced web search: "
                  (match engine validatedParams, sonar_model (adv_params validatedParams) with
                   | Some sonar_answer, Some _ =>
                       generateAnswerWithSonar env (adv_params validatedParams) w
                   | _, _ => searchWeb env (adv_params validatedParams) w
                   end)
            end
        end
    end.

(** A runtime that accepts every input and prints results and errors by
    their query and message. *)
Module PlainRuntime.

Definition runtime : ToolRuntime :=
  {| schema_parse := Ok;
     advanced_schema_parse := Ok;
     JSON_stringify := fun result => query (meta result);
     String_of_thrown := fun error => "Error: " +:+ err_message error |}.

End PlainRuntime.

(** ** Concrete runs

    A small world on which the client can be evaluated: a clock that
    advances by 10 ms per reading, a process environment that sets both
    GLM_API_KEY and PERPLEXITY_API_KEY, a .env file that sets the rate limit
    and the cache TTL, and an upstream that answers every search with the
    same three results. *)
Module Scenario.

Definition raw (t u : string) : option RawResult :=
  Some {| raw_title := Some t; raw_url := Some u; raw_snippet := Some "text";
          raw_published_at := None; raw_source := None; raw_score := None |}.

Definition upstream : RawResponse :=
  {| raw_results := Some [ raw "Ownership" "https://a.example/x";
                           raw "Borrowing" "https://a.example/y";
                           raw "Lifetimes" "https://b.example/z" ] |}.

(** An answer with text but without [citations], [highlights], [clusters]. *)
Definition answer_only : SonarRaw :=
  {| s_choices := Some [ChoiceObject (Some "Ownership is a set of rules.")];
     s_answer := None; s_citations := None; s_highlights := None;
     s_clusters := None |}.

Definition env_up : Env :=
  {| clock := fun k => 1000 + 10 * Z.of_nat k;
     search_api := fun _ => Resolved upstream;
     sonar_api := fun _ => Resolved (Some answer_only);
     process_env := {[ "GLM_API_KEY" := "glm-key"; "PERPLEXITY_API_KEY" := "pplx-key" ]};
     dotenv := [ Ok {[ "WEB_SEARCH_RATE_LIMIT" := "3"; "WEB_SEARCH_CACHE_TTL" := "5" ]} ] |}.

(** The same world with nothing set in the environment. *)
Definition env_bare : Env :=
  {| clock := fun k => 1000 + 10 * Z.of_nat k;
     search_api := fun _ => Resolved upstream;
     sonar_api := fun _ => Resolved (Some answer_only);
     process_env := ∅;
     dotenv := [] |}.

(** The singletons as their constructors leave them. *)
Definition fresh : World :=
  {| w_cache := {| cache := ∅; defaultTtl := 1800000 |};
     w_limiter := {| requests := []; limit := 5; windowMs := 1000; retryAfterMs := 1000 |};
     w_ticks := 0; w_net := [] |}.

(** Five requests recorded within the last second: the limiter is full. *)
Definition saturated : World :=
  {| w_cache := {| cache := ∅; defaultTtl := 1800000 |};
     w_limiter := {| requests := [900; 910; 920; 930; 940];
                     limit := 5; windowMs := 1000; retryAfterMs := 1000 |};
     w_ticks := 0; w_net := [] |}.

Definition just (query : string) : SearchParams :=
  {| q := query; top_k := None; time_range := None; site := None; lang := None;
     region := None; safe_mode := None; include_snippets := None;
     operators := None; exclude_sites := None; from := None; to := None;
     dedupe := None; aggregate := None; sonar_model := None |}.

Definition with_top_k (query : string) (k : Z) : SearchParams :=
  {| q := query; top_k := Some k; time_range := None; site := None; lang := None;
     region := None; safe_mode := None; include_snippets := None;
     operators := None; exclude_sites := None; from := None; to := None;
     dedupe := None; aggregate := None; sonar_model := None |}.

Definition with_site (query s : string) : SearchParams :=
  {| q := query; top_k := None; time_range := None; site := Some s; lang := None;
     region := None; safe_mode := None; include_snippets := None;
     operators := None; exclude_sites := None; from := None; to := None;
     dedupe := None; aggregate := None; sonar_model := None |}.

Definition with_model (query : string) (m : SonarModel) : SearchParams :=
  {| q := query; top_k := None; time_range := None; site := None; lang := None;
     region := None; safe_mode := None; include_snippets := None;
     operators := None; exclude_sites := None; from := None; to := None;
     dedupe := None; aggregate := None; sonar_model := Some m |}.

(** A response to a search for "rust" with [top_k = 5]. *)
Definition stored : SearchWebResult :=
  {| results := [ {| title := "Ownership"; url := "https://a.example/x";
                     snippet := "text"; published_at := None; source := None;
                     score := None |} ];
     meta := {| query := "rust"; meta_top_k := 5; meta_time_range := "any";
                cost_estimate := calculateCost 1; cache_hit := false;
                response_time := 20 |};
     clusters := None; highlights := None; citations := None |}.

(** The cache holds [stored] under the key of that search, written at time
    900 with the default TTL. *)
Definition warm : World :=
  {| w_cache := Cache_set 900 (createCacheKey (with_top_k "rust" 5)) stored None
                  {| cache := ∅; defaultTtl := 1800000 |};
     w_limiter := {| requests := []; limit := 5; windowMs := 1000; retryAfterMs := 1000 |};
     w_ticks := 0; w_net := [] |}.

End Scenario.

(** * Properties *)

(** ** Security filter *)

Section SecurityProps.
Context `{URLApi}.

Lemma includes_allowed_protocol (p : string) :
  includes ALLOWED_PROTOCOLS p = true <-> p = "https:".
Proof.
  unfold includes, ALLOWED_PROTOCOLS; simpl.
  rewrite orb_false_r. apply String.eqb_eq.
Qed.

Lemma isValidUrl_unparsable (urlString : string) :
  URL_parse urlString = None -> isValidUrl urlString = false.
Proof. intros Hp. unfold isValidUrl. now rewrite Hp. Qed.

(** C6. [isValidUrl] is false for every URL whose hostname is 127.0.0.1,
    169.254.169.254, 10.0.0.5 or metadata.google.internal, whatever the rest
    of the URL; it is true for https://example.com/path; and it is false for
    every URL whose scheme is not https, whatever its hostname. *)
Theorem isValidUrl_hosts_and_scheme :
  (forall urlString u,
      URL_parse urlString = Some u ->
      In (hostname u)
         ["127.0.0.1"; "169.254.169.254"; "10.0.0.5"; "metadata.google.internal"] ->
      isValidUrl urlString = false)
  /\ (forall u,
         URL_parse "https://example.com/path" = Some u ->
         protocol u = "https:" -> hostname u = "example.com" ->
         isValidUrl "https://example.com/path" = true)
  /\ (forall urlString u,
         URL_parse urlString = Some u -> protocol u <> "https:" ->
         isValidUrl urlString = false).
Proof.
  split; [|split].
  - intros urlString u Hp Hin. unfold isValidUrl. rewrite Hp.
    destruct (negb (includes ALLOWED_PROTOCOLS (protocol u))); [reflexivity|].
    simpl in Hin.
    destruct Hin as [<-|[<-|[<-|[<-|[]]]]]; vm_compute; reflexivity.
  - intros u Hp Hproto Hhost. unfold isValidUrl. rewrite Hp, Hproto, Hhost.
    vm_compute. reflexivity.
  - intros urlString u Hp Hproto. unfold isValidUrl. rewrite Hp.
    destruct (includes ALLOWED_PROTOCOLS (protocol u)) eqn:E; [|reflexivity].
    apply includes_allowed_protocol in E. contradiction.
Qed.

End SecurityProps.

Lemma isValidUrl_hosts_and_scheme_witness :
  @isValidUrl RefURL.api "https://127.0.0.1/admin?x=1" = false
  /\ @isValidUrl RefURL.api "https://example.com/path" = true
  /\ @isValidUrl RefURL.api "http://example.com/path" = false.
Proof.
  destruct (@isValidUrl_hosts_and_scheme RefURL.api) as (Hhost & Hok & Hscheme).
  split; [|split].
  - eapply Hhost; [reflexivity | simpl; tauto].
  - eapply Hok; reflexivity.
  - eapply Hscheme; [reflexivity | simpl; discriminate].
Defined.

(** ** Rate limiter *)

Lemma prune_requests (now : Z) (rl : RateLimiter) (t : Z) :
  In t (requests (prune now rl)) <-> In t (requests rl) /\ now - t < windowMs rl.
Proof.
  unfold prune; simpl. rewrite filter_In. rewrite Z.ltb_lt. reflexivity.
Qed.

Lemma prune_all_in_window (lo now : Z) (rl : RateLimiter) :
  Forall (in_window lo (windowMs rl)) (requests rl) ->
  in_window lo (windowMs rl) now ->
  prune now rl = rl.
Proof.
  intros Hall Hnow. destruct rl as [rs l w r]; unfold prune; simpl in *.
  f_equal. induction Hall as [|t ts Ht _ IH]; simpl; [reflexivity|].
  unfold in_window in *.
  destruct (Z.ltb_spec (now - t) w); [|lia]. now rewrite IH.
Qed.

Lemma checkLimit_all_in_window (lo now : Z) (rl : RateLimiter) :
  Forall (in_window lo (windowMs rl)) (requests rl) ->
  in_window lo (windowMs rl) now ->
  checkLimit now rl = (Z.of_nat (length (requests rl)) <? limit rl, rl).
Proof.
  intros Hall Hnow. unfold checkLimit.
  now rewrite (prune_all_in_window lo now rl Hall Hnow).
Qed.

Lemma accept_calls_in_window (lo : Z) (calls : list (Z * Z)) :
  forall rl : RateLimiter,
    Forall (in_window lo (windowMs rl)) (requests rl) ->
    Forall (fun c => in_window lo (windowMs rl) (fst c)
                     /\ in_window lo (windowMs rl) (snd c)) calls ->
    Z.of_nat (length (requests rl)) + Z.of_nat (length calls) <= limit rl ->
    fst (accept_calls calls rl) = repeat true (length calls)
    /\ requests (snd (accept_calls calls rl)) = (requests rl ++ map snd calls)%list
    /\ limit (snd (accept_calls calls rl)) = limit rl
    /\ windowMs (snd (accept_calls calls rl)) = windowMs rl.
Proof.
  induction calls as [|[tc ti] rest IH]; intros rl Hall Hcalls Hlen.
  - simpl. rewrite app_nil_r. auto.
  - inversion Hcalls as [|? ? [Hc Hi] Hrest]; subst. simpl in Hc, Hi.
    assert (Hlt : (Z.of_nat (length (requests rl)) <? limit rl) = true).
    { apply Z.ltb_lt. simpl length in Hlen. lia. }
    cbn [accept_calls].
    rewrite (checkLimit_all_in_window lo tc rl Hall Hc), Hlt.
    specialize (IH (increment ti rl)).
    destruct (accept_calls rest (increment ti rl)) as [oks rl3] eqn:E.
    simpl in IH |- *.
    destruct IH as (Hoks & Hreq & Hlim & Hwin).
    + apply Forall_app; split; [assumption|]. constructor; [assumption|constructor].
    + assumption.
    + rewrite length_app. simpl length in *. lia.
    + rewrite Hoks, Hreq, <- app_assoc. simpl. auto.
Qed.

(** C5. [checkLimit] drops every timestamp that is older than [windowMs]
    and answers whether fewer than [limit] remain; so calls that stay below
    the limit inside one window are all admitted, and once [limit] calls are
    recorded in the window the next check in it is refused. *)
Theorem checkLimit_sliding_window (rl : RateLimiter) :
  (forall now,
      (forall t, In t (requests (snd (checkLimit now rl)))
                 <-> In t (requests rl) /\ now - t < windowMs rl)
      /\ (forall t, windowMs rl < now - t ->
                    ~ In t (requests (snd (checkLimit now rl))))
      /\ (fst (checkLimit now rl) = true
          <-> Z.of_nat (length (requests (snd (checkLimit now rl)))) < limit rl))
  /\ (forall lo calls,
         Forall (in_window lo (windowMs rl)) (requests rl) ->
         Forall (fun c => in_window lo (windowMs rl) (fst c)
                          /\ in_window lo (windowMs rl) (snd c)) calls ->
         Z.of_nat (length (requests rl)) + Z.of_nat (length calls) <= limit rl ->
         fst (accept_calls calls rl) = repeat true (length calls))
  /\ (forall lo calls now,
         Forall (in_window lo (windowMs rl)) (requests rl) ->
         Forall (fun c => in_window lo (windowMs rl) (fst c)
                          /\ in_window lo (windowMs rl) (snd c)) calls ->
         Z.of_nat (length (requests rl)) + Z.of_nat (length calls) = limit rl ->
         in_window lo (windowMs rl) now ->
         fst (checkLimit now (snd (accept_calls calls rl))) = false).
Proof.
  split; [|split].
  - intros now. split; [|split].
    + intros t. apply prune_requests.
    + intros t Hold Hin. apply prune_requests in Hin. lia.
    + unfold checkLimit; simpl. apply Z.ltb_lt.
  - intros lo calls Hall Hcalls Hlen.
    apply (accept_calls_in_window lo calls rl Hall Hcalls Hlen).
  - intros lo calls now Hall Hcalls Hlen Hnow.
    destruct (accept_calls_in_window lo calls rl Hall Hcalls) as (_ & Hreq & Hlim & Hwin);
      [lia|].
    set (rl' := snd (accept_calls calls rl)) in *.
    rewrite (checkLimit_all_in_window lo now rl').
    + simpl. apply Z.ltb_ge. rewrite Hreq, Hlim, length_app, length_map. lia.
    + rewrite Hwin, Hreq. apply Forall_app; split; [assumption|].
      apply List.Forall_forall. intros t Ht. apply in_map_iff in Ht.
      destruct Ht as ([tc ti] & <- & Hin).
      rewrite List.Forall_forall in Hcalls. apply (Hcalls _ Hin).
    + now rewrite Hwin.
Qed.

Lemma checkLimit_sliding_window_witness :
  let rl := {| requests := []; limit := 3; windowMs := 1000; retryAfterMs := 1000 |} in
  fst (accept_calls [(100, 110); (200, 230); (900, 950)] rl) = [true; true; true]
  /\ fst (checkLimit 1099 (snd (accept_calls [(100, 110); (200, 230); (900, 950)] rl)))
     = false.
Proof.
  intros rl.
  destruct (checkLimit_sliding_window rl) as (_ & Hallow & Hrefuse).
  split.
  - apply (Hallow 100 [(100, 110); (200, 230); (900, 950)]).
    + constructor.
    + repeat constructor; vm_compute; intuition discriminate.
    + vm_compute. discriminate.
  - apply (Hrefuse 100 [(100, 110); (200, 230); (900, 950)] 1099).
    + constructor.
    + repeat constructor; vm_compute; intuition discriminate.
    + vm_compute. reflexivity.
    + vm_compute. intuition discriminate.
Defined.

(** ** Cache *)

Lemma ttl_or_default_nonzero (t dflt : Z) :
  t <> 0 -> ttl_or_default (Some t) dflt = t.
Proof.
  intros Ht. unfold ttl_or_default.
  destruct (Z.eqb_spec t 0); [contradiction | reflexivity].
Qed.

(** C7, as the code has it. [Cache.set] stores [{data, timestamp: now, ttl}]
    under the key, replacing whatever was there and leaving the other keys
    alone; the stored [ttl] is the supplied one when it is supplied and
    non-zero, and [defaultTtl] when it is absent or zero. *)
Theorem Cache_set_stores_entry {A : Type} (now : Z) (key : string) (d : A)
    (ttl_arg : option Z) (c : Cache A) :
  cache (Cache_set now key d ttl_arg c) !! key
    = Some {| data := d; timestamp := now;
              ttl := match ttl_arg with
                     | Some t => if decide (t = 0) then defaultTtl c else t
                     | None => defaultTtl c
                     end |}
  /\ (forall t, ttl_arg = Some t -> t <> 0 ->
                ttl <$> (cache (Cache_set now key d ttl_arg c) !! key) = Some t)
  /\ (forall old, Cache_set now key d ttl_arg
                    {| cache := <[key := old]> (cache c); defaultTtl := defaultTtl c |}
                  = Cache_set now key d ttl_arg c)
  /\ (forall other, other <> key ->
                    cache (Cache_set now key d ttl_arg c) !! other = cache c !! other)
  /\ defaultTtl (Cache_set now key d ttl_arg c) = defaultTtl c.
Proof.
  unfold Cache_set; simpl. repeat split.
  - rewrite lookup_insert_eq. do 2 f_equal.
    destruct ttl_arg as [t|]; simpl; [|reflexivity].
    destruct (Z.eqb_spec t 0); case_decide; congruence.
  - intros t -> Ht. rewrite lookup_insert_eq.
    cbn [fmap option_fmap option_map ttl]. now rewrite ttl_or_default_nonzero.
  - intros old. now rewrite insert_insert_eq.
  - intros other Hne. now rewrite lookup_insert_ne.
Qed.

(** C7, the claim as stated fails: an explicit [ttl] of 0 is not stored as
    given, the default of 30 minutes is stored instead. *)
Lemma Cache_set_zero_ttl_not_stored :
  let c := Cache_set 1000 "k" "payload" (Some 0) {| cache := ∅; defaultTtl := 1800000 |} in
  ttl <$> (cache c !! "k") = Some 1800000
  /\ ttl <$> (cache c !! "k") <> Some 0.
Proof.
  intros c. assert (E : ttl <$> (cache c !! "k") = Some 1800000).
  { unfold c, Cache_set. simpl. rewrite lookup_insert_eq. reflexivity. }
  split; [exact E|]. rewrite E. discriminate.
Qed.

Lemma Cache_set_stores_entry_witness :
  ttl <$> (cache (Cache_set 1000 "k" "payload" (Some 60000)
                    {| cache := ∅; defaultTtl := 1800000 |}) !! "k")
  = Some 60000.
Proof.
  destruct (Cache_set_stores_entry 1000 "k" "payload" (Some 60000)
              {| cache := ∅; defaultTtl := 1800000 |})
    as (_ & Hgiven & _).
  apply (Hgiven 60000); [reflexivity | lia].
Defined.

(** ** Deduplication *)

Section DedupeProps.
Context `{URLApi}.
Variable strategy : Dedupe.

Local Abbreviation key := (dedupe_key strategy).

Lemma dedupe_filter_sublist (l : list SearchResult) :
  forall seen, sublist (dedupe_filter strategy seen l) l.
Proof.
  induction l as [|r l IH]; intros seen; simpl.
  - constructor.
  - case_decide.
    + apply sublist_cons, IH.
    + apply sublist_skip, IH.
Qed.

Lemma dedupe_filter_fresh (l : list SearchResult) :
  forall seen r, r ∈ dedupe_filter strategy seen l -> key r ∉ seen.
Proof.
  induction l as [|x l IH]; intros seen r; simpl.
  - intros Hin. inversion Hin.
  - case_decide as Hx.
    + apply IH.
    + intros Hin. apply elem_of_cons in Hin as [->|Hin]; [assumption|].
      apply IH in Hin. set_solver.
Qed.

Lemma dedupe_filter_NoDup (l : list SearchResult) :
  forall seen, NoDup (map key (dedupe_filter strategy seen l)).
Proof.
  induction l as [|x l IH]; intros seen; simpl.
  - constructor.
  - case_decide as Hx; [apply IH|].
    simpl. constructor; [|apply IH].
    intros Hin. apply list_elem_of_fmap in Hin as (r & Hk & Hr).
    apply dedupe_filter_fresh in Hr. set_solver.
Qed.

Lemma dedupe_filter_fixed (l : list SearchResult) :
  forall seen,
    NoDup (map key l) -> (forall r, r ∈ l -> key r ∉ seen) ->
    dedupe_filter strategy seen l = l.
Proof.
  induction l as [|x l IH]; intros seen Hnd Hfresh; simpl; [reflexivity|].
  simpl in Hnd. apply NoDup_cons in Hnd as [Hx Hnd].
  case_decide as Hseen.
  - exfalso. apply (Hfresh x); [left|assumption].
  - f_equal. apply IH; [assumption|].
    intros r Hr Hin. apply elem_of_union in Hin as [Hin|Hin].
    + apply elem_of_singleton in Hin. apply Hx. rewrite <- Hin.
      apply list_elem_of_fmap. eauto.
    + apply (Hfresh r); [now right | assumption].
Qed.

Lemma dedupe_filter_first (l : list SearchResult) :
  forall seen k, k ∉ seen ->
    first_with_key strategy k (dedupe_filter strategy seen l)
    = first_with_key strategy k l.
Proof.
  unfold first_with_key.
  induction l as [|x l IH]; intros seen k Hk; simpl; [reflexivity|].
  case_decide as Hx.
  - destruct (String.eqb_spec (key x) k) as [<-|Hne]; [contradiction|].
    now apply IH.
  - simpl. destruct (String.eqb_spec (key x) k) as [<-|Hne]; [reflexivity|].
    apply IH. intros Hin. apply elem_of_union in Hin as [Hin|Hin].
    + apply elem_of_singleton in Hin. congruence.
    + contradiction.
Qed.

Lemma dedupe_filter_elem (l : list SearchResult) :
  forall seen r,
    r ∈ dedupe_filter strategy seen l
    <-> ((key r ∉ seen) /\ first_with_key strategy (key r) l = Some r).
Proof.
  unfold first_with_key.
  induction l as [|x l IH]; intros seen r; simpl.
  - split; [intros Hin; inversion Hin | intros [_ Hbad]; discriminate Hbad].
  - case_decide as Hx.
    + rewrite IH. destruct (String.eqb_spec (key x) (key r)) as [Heq|Hne].
      * split; [intros [Hr _]; congruence | intros [Hr _]; congruence].
      * reflexivity.
    + rewrite elem_of_cons, IH.
      destruct (String.eqb_spec (key x) (key r)) as [Heq|Hne].
      * split.
        -- intros [->|[Hr _]]; [split; [assumption | reflexivity]|].
           exfalso. apply Hr. rewrite Heq.
           apply elem_of_union_l. now apply elem_of_singleton.
        -- intros [_ [= ->]]. now left.
      * split.
        -- intros [->|[Hr Hfind]]; [contradiction|]. split; [|exact Hfind].
           intros Hs. apply Hr, elem_of_union_r, Hs.
        -- intros [Hr Hfind]. right. split; [|exact Hfind].
           intros Hs. apply elem_of_union in Hs as [Hs|Hs]; [|contradiction].
           apply elem_of_singleton in Hs. congruence.
Qed.

(** For every strategy, in terms of the key computed in the filter. *)
Lemma deduplicateResults_keyed (l : list SearchResult) :
  deduplicateResults (deduplicateResults l strategy) strategy
    = deduplicateResults l strategy
  /\ sublist (deduplicateResults l strategy) l
  /\ NoDup (map key (deduplicateResults l strategy))
  /\ (forall k, first_with_key strategy k (deduplicateResults l strategy)
                = first_with_key strategy k l)
  /\ (forall r, r ∈ deduplicateResults l strategy
                <-> first_with_key strategy (key r) l = Some r).
Proof.
  unfold deduplicateResults. repeat split.
  - apply dedupe_filter_fixed.
    + apply dedupe_filter_NoDup.
    + intros r _. apply not_elem_of_empty.
  - apply dedupe_filter_sublist.
  - apply dedupe_filter_NoDup.
  - intros k. apply dedupe_filter_first, not_elem_of_empty.
  - intros Hin. apply dedupe_filter_elem in Hin. tauto.
  - intros Hfind. apply dedupe_filter_elem. split; [apply not_elem_of_empty | exact Hfind].
Qed.

End DedupeProps.

(** C9. [deduplicateResults] is idempotent for both strategies.  For
    'domain' the key of a result is the hostname of its parsed URL, or the
    URL string itself when the URL does not parse; for 'title' it is the
    exact title.  The output keeps the order of the input, has no two
    elements with the same key, and holds, for each key, exactly the first
    input element with that key. *)
Theorem deduplicateResults_idempotent_first_seen `{URLApi} (l : list SearchResult) :
  let host := fun r => match URL_parse (url r) with
                       | Some u => hostname u
                       | None => url r
                       end in
  (deduplicateResults (deduplicateResults l domain) domain = deduplicateResults l domain
   /\ sublist (deduplicateResults l domain) l
   /\ NoDup (map host (deduplicateResults l domain))
   /\ (forall k, first_by host k (deduplicateResults l domain) = first_by host k l)
   /\ (forall r, r ∈ deduplicateResults l domain <-> first_by host (host r) l = Some r))
  /\ (deduplicateResults (deduplicateResults l title_) title_ = deduplicateResults l title_
      /\ sublist (deduplicateResults l title_) l
      /\ NoDup (map title (deduplicateResults l title_))
      /\ (forall k, first_by title k (deduplicateResults l title_) = first_by title k l)
      /\ (forall r, r ∈ deduplicateResults l title_ <-> first_by title (title r) l = Some r)).
Proof.
  intros host. split.
  - exact (deduplicateResults_keyed domain l).
  - exact (deduplicateResults_keyed title_ l).
Qed.

(** ** Effects: what each step of the client may change *)

Section Preservation.
Context {R : World -> World -> Prop}.
Hypothesis R_refl : forall w, R w w.
Hypothesis R_trans : forall w1 w2 w3, R w1 w2 -> R w2 w3 -> R w1 w3.

Lemma preserves_ret {A} (a : A) : preserves R (ret a).
Proof. intros w. apply R_refl. Qed.

Lemma preserves_throw {A} (e : JsError) : preserves R (@throw A e).
Proof. intros w. apply R_refl. Qed.

Lemma preserves_lift {A} (r : Result A) : preserves R (lift r).
Proof. intros w. apply R_refl. Qed.

Lemma preserves_bind {A B} (m : M A) (k : A -> M B) :
  preserves R m -> (forall a, preserves R (k a)) -> preserves R (bind m k).
Proof.
  intros Hm Hk w. unfold bind. specialize (Hm w).
  destruct (m w) as [[a|e] w1]; simpl in *.
  - eapply R_trans; [exact Hm | apply Hk].
  - exact Hm.
Qed.

Lemma preserves_rethrow {A} (m : M A) (h : JsError -> JsError) :
  preserves R m -> preserves R (rethrow m h).
Proof.
  intros Hm w. unfold rethrow. specialize (Hm w).
  destruct (m w) as [[a|e] w1]; exact Hm.
Qed.

Lemma preserves_retry_loop {A} (operation : M A) (remaining : nat) :
  preserves R operation -> preserves R (retry_loop operation remaining).
Proof.
  intros Hop. induction remaining as [|n IH]; intros w; simpl;
    specialize (Hop w); destruct (operation w) as [[a|e] w1]; simpl in *;
    try exact Hop.
  eapply R_trans; [exact Hop | apply IH].
Qed.

Lemma preserves_withTimeout {A} (operation : M (Outcome A)) (timeoutMs : option Z) :
  preserves R operation -> preserves R (withTimeout operation timeoutMs).
Proof.
  intros Hop. unfold withTimeout. apply preserves_bind; [exact Hop|].
  intros [a|e|]; [apply preserves_ret | apply preserves_throw | apply preserves_throw].
Qed.

End Preservation.

Lemma same_store_refl (w : World) : same_store w w.
Proof. split; reflexivity. Qed.

Lemma same_store_trans (w1 w2 w3 : World) :
  same_store w1 w2 -> same_store w2 w3 -> same_store w1 w3.
Proof. intros [? ?] [? ?]. split; congruence. Qed.

(** Walks through the binds of an effect, leaving the primitive steps. *)
Ltac preserve_with refl trans :=
  repeat first
    [ exact refl | exact trans
    | apply preserves_withTimeout | apply preserves_retry_loop
    | apply preserves_rethrow
    | apply preserves_ret | apply preserves_throw | apply preserves_lift
    | apply preserves_bind
    | intro ].

Section ClientProps.
Context `{URLApi} (env : Env).

Lemma makePerplexityRequest_store (apiKey : string) (payload : SearchPayload) :
  preserves same_store (makePerplexityRequest env apiKey payload).
Proof.
  unfold makePerplexityRequest, request_timeout, withRetry.
  preserve_with same_store_refl same_store_trans.
Qed.

End ClientProps.

Section SearchProps.
Context `{URLApi} (env : Env).

Lemma rateLimiter_checkLimit_eq (w : World) :
  rateLimiter_checkLimit env w
  = (Ok (fst (checkLimit (clock env (w_ticks w)) (w_limiter w))), after_check env w).
Proof. reflexivity. Qed.

Lemma searchWeb_unfold (params : SearchParams) (w : World) :
  searchWeb env params w
  = if fst (checkLimit (clock env (w_ticks w)) (w_limiter w))
    then bind (cache_get env (createCacheKey params))
           (fun cachedResult =>
              match cachedResult with
              | Some cachedResult => ret (with_cache_hit cachedResult)
              | None =>
                  bind (lift (getEnv env))
                    (fun cfg =>
                       match or_null (PERPLEXITY_API_KEY cfg) with
                       | None => throw (Error "PERPLEXITY_API_KEY is not configured")
                       | Some apiKey =>
                           searchWeb_fetch env params (createCacheKey params) apiKey
                       end)
              end) (after_check env w)
    else (Throw (Error "Rate limit exceeded. Please try again later."),
          after_check env w).
Proof.
  unfold searchWeb, bind at 1. rewrite rateLimiter_checkLimit_eq.
  destruct (fst (checkLimit (clock env (w_ticks w)) (w_limiter w))); reflexivity.
Qed.

(** C3, as the code has it. When the rate-limit check refuses, [searchWeb]
    throws at once a plain [Error] with the message "Rate limit exceeded.
    Please try again later." and no [code]; it has read the clock once and
    pruned the limiter, and has neither read the cache nor issued a request. *)
Theorem searchWeb_refused_immediately (params : SearchParams) (w : World) :
  fst (checkLimit (clock env (w_ticks w)) (w_limiter w)) = false ->
  searchWeb env params w
  = (Throw (Error "Rate limit exceeded. Please try again later."),
     {| w_cache := w_cache w;
        w_limiter := prune (clock env (w_ticks w)) (w_limiter w);
        w_ticks := S (w_ticks w);
        w_net := w_net w |})
  /\ err_code (Error "Rate limit exceeded. Please try again later.") = None.
Proof.
  intros Hrefused. rewrite searchWeb_unfold, Hrefused. split; reflexivity.
Qed.

End SearchProps.

Section CacheHitProps.
Context `{URLApi} (env : Env).

Lemma cache_get_live (key : string) (entry : CacheEntry SearchWebResult) (w : World) :
  cache (w_cache w) !! key = Some entry ->
  clock env (w_ticks w) - timestamp entry <= ttl entry ->
  cache_get env key w
  = (Ok (Some (data entry)),
     {| w_cache := w_cache w; w_limiter := w_limiter w;
        w_ticks := S (w_ticks w); w_net := w_net w |}).
Proof.
  intros Hentry Hlive. unfold cache_get. rewrite Hentry.
  unfold bind, Date_now, Cache_get; cbn [w_cache w_ticks fst snd].
  rewrite Hentry.
  destruct (Z.ltb_spec (ttl entry) (clock env (w_ticks w) - timestamp entry)); [lia|].
  destruct w as [[c d] l t n]; reflexivity.
Qed.

Lemma prune_sublist (now : Z) (rl : RateLimiter) :
  sublist (requests (prune now rl)) (requests rl).
Proof.
  unfold prune; cbn [requests].
  induction (requests rl) as [|t ts IH]; simpl; [constructor|].
  destruct (now - t <? windowMs rl); [apply sublist_skip | apply sublist_cons]; exact IH.
Qed.

Lemma prune_length (now : Z) (rl : RateLimiter) :
  (length (requests (prune now rl)) <= length (requests rl))%nat.
Proof. unfold prune; simpl. apply List.filter_length_le. Qed.

Lemma searchWeb_hit_eq (params : SearchParams) (w : World)
    (entry : CacheEntry SearchWebResult) :
  cache (w_cache w) !! createCacheKey params = Some entry ->
  clock env (S (w_ticks w)) - timestamp entry <= ttl entry ->
  fst (checkLimit (clock env (w_ticks w)) (w_limiter w)) = true ->
  searchWeb env params w
  = (Ok (with_cache_hit (data entry)),
     {| w_cache := w_cache w;
        w_limiter := prune (clock env (w_ticks w)) (w_limiter w);
        w_ticks := S (S (w_ticks w)); w_net := w_net w |}).
Proof.
  intros Hentry Hlive Hallow. rewrite searchWeb_unfold, Hallow.
  unfold bind.
  rewrite (cache_get_live (createCacheKey params) entry (after_check env w));
    [reflexivity | exact Hentry | exact Hlive].
Qed.

(** C4. When the key of a call has a live cached entry, the response that
    [searchWeb] returns is the cached one with [meta.cache_hit] set and every
    other field as stored; it is returned whenever the limiter admits the
    call; and the call adds nothing to the limiter's recorded requests,
    leaves the cache as it was and issues no request. *)
Theorem searchWeb_cache_hit (params : SearchParams) (w : World)
    (entry : CacheEntry SearchWebResult) :
  cache (w_cache w) !! createCacheKey params = Some entry ->
  clock env (S (w_ticks w)) - timestamp entry <= ttl entry ->
  let run := searchWeb env params w in
  (fst (checkLimit (clock env (w_ticks w)) (w_limiter w)) = true ->
   fst run = Ok (with_cache_hit (data entry)))
  /\ (forall r, fst run = Ok r ->
        results r = results (data entry)
        /\ clusters r = clusters (data entry)
        /\ highlights r = highlights (data entry)
        /\ citations r = citations (data entry)
        /\ cache_hit (meta r) = true
        /\ query (meta r) = query (meta (data entry))
        /\ meta_top_k (meta r) = meta_top_k (meta (data entry))
        /\ meta_time_range (meta r) = meta_time_range (meta (data entry))
        /\ cost_estimate (meta r) = cost_estimate (meta (data entry))
        /\ response_time (meta r) = response_time (meta (data entry)))
  /\ (length (requests (w_limiter (snd run))) <= length (requests (w_limiter w)))%nat
  /\ w_cache (snd run) = w_cache w
  /\ w_net (snd run) = w_net w.
Proof.
  intros Hentry Hlive run. unfold run.
  destruct (fst (checkLimit (clock env (w_ticks w)) (w_limiter w))) eqn:Hallow.
  - rewrite (searchWeb_hit_eq params w entry Hentry Hlive Hallow).
    cbn [fst snd w_limiter w_cache w_net].
    split; [|split; [|split; [|split]]]; try reflexivity.
    + intros r Hr. injection Hr as <-. repeat split.
    + apply prune_length.
  - rewrite searchWeb_unfold, Hallow.
    cbn [fst snd w_limiter w_cache w_net after_check].
    split; [|split; [|split; [|split]]]; try reflexivity.
    + discriminate.
    + intros r Hr. discriminate Hr.
    + apply prune_length.
Qed.

End CacheHitProps.

Section FailureProps.
Context `{URLApi} (env : Env).

Lemma cache_get_outcome (key : string) (w : World) :
  exists r w',
    cache_get env key w = (Ok r, w')
    /\ w_limiter w' = w_limiter w /\ w_net w' = w_net w
    /\ (w_cache w' = w_cache w \/ w_cache w' = Cache_delete key (w_cache w)).
Proof.
  unfold cache_get. destruct (cache (w_cache w) !! key) as [entry|] eqn:Hentry.
  - unfold bind, Date_now, Cache_get; cbn [w_cache w_ticks]. rewrite Hentry.
    destruct (ttl entry <? clock env (w_ticks w) - timestamp entry);
      do 2 eexists; (split; [reflexivity|]); cbn; auto.
  - exists None, w. auto.
Qed.

Lemma searchWeb_fetch_throws (params : SearchParams) (cacheKey apiKey : string)
    (w w' : World) (e : JsError) :
  searchWeb_fetch env params cacheKey apiKey w = (Throw e, w') ->
  same_store w w'.
Proof.
  unfold searchWeb_fetch, bind. cbn [Date_now].
  set (w1 := {| w_cache := w_cache w; w_limiter := w_limiter w;
                w_ticks := S (w_ticks w); w_net := w_net w |}).
  pose proof (makePerplexityRequest_store env apiKey (build_payload params) w1) as Hstore.
  destruct (makePerplexityRequest env apiKey (build_payload params) w1)
    as [[response|e1] w2]; cbn [snd] in Hstore.
  - unfold lift. destruct (results_array response) as [rawResults|e2].
    + discriminate.
    + intros [= <- <-]. exact Hstore.
  - intros [= <- <-]. exact Hstore.
Qed.

(** C8. A [searchWeb] call that ends in an error has written no cache entry
    and recorded no timestamp: every entry of the cache afterwards was there
    before, entries under other keys are untouched, and the limiter holds
    exactly the earlier timestamps that are still inside the window. *)
Theorem searchWeb_failure_leaves_state (params : SearchParams) (w : World)
    (e : JsError) :
  fst (searchWeb env params w) = Throw e ->
  let w' := snd (searchWeb env params w) in
  (forall k entry, cache (w_cache w') !! k = Some entry ->
                   cache (w_cache w) !! k = Some entry)
  /\ (forall k, k <> createCacheKey params ->
                cache (w_cache w') !! k = cache (w_cache w) !! k)
  /\ defaultTtl (w_cache w') = defaultTtl (w_cache w)
  /\ w_limiter w' = prune (clock env (w_ticks w)) (w_limiter w)
  /\ sublist (requests (w_limiter w')) (requests (w_limiter w)).
Proof.
  intros Hthrow w'.
  assert (Hstate : (w_cache w' = w_cache w
                    \/ w_cache w' = Cache_delete (createCacheKey params) (w_cache w))
                   /\ w_limiter w' = prune (clock env (w_ticks w)) (w_limiter w)).
  { subst w'. destruct (searchWeb env params w) as [res wf] eqn:Hrun.
    cbn [fst snd] in *. subst res. rewrite searchWeb_unfold in Hrun.
    destruct (fst (checkLimit (clock env (w_ticks w)) (w_limiter w))).
    - unfold bind at 1 in Hrun.
      destruct (cache_get_outcome (createCacheKey params) (after_check env w))
        as (r & w1 & Hget & Hlim & _ & Hcache).
      rewrite Hget in Hrun.
      cbn [after_check w_limiter w_cache] in Hlim, Hcache.
      destruct r as [cached|]; [discriminate|].
      unfold bind, lift in Hrun. destruct (getEnv env) as [cfg|e0].
      + destruct (or_null (PERPLEXITY_API_KEY cfg)) as [apiKey|].
        * apply searchWeb_fetch_throws in Hrun as [Hc Hl].
          rewrite Hc, Hl. auto.
        * injection Hrun as _ <-. auto.
      + injection Hrun as _ <-. auto.
    - injection Hrun as _ <-. cbn [after_check w_cache w_limiter]. auto. }
  destruct Hstate as [Hcache Hlim].
  split; [|split; [|split; [|split]]].
  - intros k entry. destruct Hcache as [->| ->]; [auto|].
    cbn [Cache_delete cache]. intros Hk. apply lookup_delete_Some in Hk. tauto.
  - intros k Hk. destruct Hcache as [->| ->]; [auto|].
    cbn [Cache_delete cache]. now apply lookup_delete_ne.
  - destruct Hcache as [->| ->]; reflexivity.
  - exact Hlim.
  - rewrite Hlim. apply prune_sublist.
Qed.

End FailureProps.

(** ** The credential check

    [getEnv] builds its result from six fixed properties; the credential
    and the timeout that the client reads from it are not among them. *)

Lemma object_literal_lookup (props : list (string * option string)) (name : string) :
  Forall (fun prop => prop.1 <> name) props -> object_literal props !! name = None.
Proof.
  induction 1 as [|[n [value|]] props Hne _ IH]; cbn in *.
  - apply lookup_empty.
  - rewrite lookup_insert_ne by exact Hne. exact IH.
  - exact IH.
Qed.

Lemma assign_files_throws (files : list (Result (gmap string string))) :
  forall base e, assign_files base files = Throw e -> In (Throw e) files.
Proof.
  induction files as [|[file|e0] files IH]; intros base e; cbn [assign_files].
  - discriminate.
  - intros Hrest. right. eapply IH, Hrest.
  - intros [= <-]. now left.
Qed.

Lemma getEnv_cases (env : Env) :
  match getEnv env with
  | Ok cfg =>
      exists vars, envConfig env = Ok vars
                   /\ or_null (vars !! "GLM_API_KEY") <> None
                   /\ cfg = getEnv_result vars
  | Throw e =>
      envConfig env = Throw e
      \/ (exists vars, envConfig env = Ok vars
                       /\ or_null (vars !! "GLM_API_KEY") = None
                       /\ e = Error "GLM_API_KEY environment variable is required")
  end.
Proof.
  unfold getEnv. destruct (envConfig env) as [vars|e]; [|now left].
  destruct (or_null (vars !! "GLM_API_KEY")) eqn:Hkey.
  - exists vars. rewrite Hkey. repeat split. discriminate.
  - right. exists vars. auto.
Qed.

Lemma getEnv_returns (env : Env) :
  match getEnv env with Ok _ => True | Throw _ => False end ->
  exists cfg, getEnv env = Ok cfg.
Proof. destruct (getEnv env) as [cfg|e]; [eauto | contradiction]. Qed.

Lemma getEnv_throws (env : Env) (e : JsError) :
  getEnv env = Throw e ->
  e = Error "GLM_API_KEY environment variable is required"
  \/ In (Throw e) (dotenv env).
Proof.
  intros Hthrow. pose proof (getEnv_cases env) as Hcases. rewrite Hthrow in Hcases.
  destruct Hcases as [Hfiles | (vars & _ & _ & ->)]; [|now left].
  right. eapply assign_files_throws, Hfiles.
Qed.

Lemma getEnv_result_names (vars : gmap string string) (name : string) :
  ~ In name [ "GLM_API_KEY"; "GLM_IMAGE_MODEL"; "GLM_VIDEO_MODEL";
              "GLM_GENERATION_MODEL"; "SIYUAN_API_TOKEN"; "SIYUAN_API_BASE" ] ->
  getEnv_result vars !! name = None.
Proof.
  intros Hnot. apply object_literal_lookup, List.Forall_forall.
  intros prop Hin Heq. apply Hnot. rewrite <- Heq.
  apply (in_map fst) in Hin. exact Hin.
Qed.

Lemma getEnv_no_credential (env : Env) (cfg : EnvConfig) :
  getEnv env = Ok cfg -> PERPLEXITY_API_KEY cfg = None /\ WEB_SEARCH_TIMEOUT_MS cfg = None.
Proof.
  intros Hcfg. pose proof (getEnv_cases env) as Hcases. rewrite Hcfg in Hcases.
  destruct Hcases as (vars & _ & _ & ->).
  split; apply getEnv_result_names; cbn; intuition discriminate.
Qed.

Lemma missing_credential_cases (env : Env) :
  missing_credential env = Error "PERPLEXITY_API_KEY is not configured"
  \/ missing_credential env = Error "GLM_API_KEY environment variable is required"
  \/ In (Throw (missing_credential env)) (dotenv env).
Proof.
  unfold missing_credential. destruct (getEnv env) as [cfg|e] eqn:Hcfg; [now left|].
  right. now apply getEnv_throws in Hcfg.
Qed.

Section CredentialProps.
Context `{URLApi} (env : Env).

(** The check [if (!env.PERPLEXITY_API_KEY) throw ...] always throws. *)
Lemma credential_check_throws {A} (k : string -> M A) (w : World) :
  bind (lift (getEnv env))
    (fun cfg => match or_null (PERPLEXITY_API_KEY cfg) with
                | None => throw (Error "PERPLEXITY_API_KEY is not configured")
                | Some apiKey => k apiKey
                end) w
  = (Throw (missing_credential env), w).
Proof.
  unfold bind, lift, missing_credential.
  destruct (getEnv env) as [cfg|e] eqn:Hcfg; [|reflexivity].
  destruct (getEnv_no_credential env cfg Hcfg) as [-> _]. reflexivity.
Qed.

Lemma cache_get_eq (key : string) (w : World) :
  cache_get env key w
  = match cache (w_cache w) !! key with
    | Some entry =>
        if ttl entry <? clock env (w_ticks w) - timestamp entry
        then (Ok None, evicted key w)
        else (Ok (Some (data entry)), ticked w)
    | None => (Ok None, w)
    end.
Proof.
  unfold cache_get. destruct (cache (w_cache w) !! key) as [entry|] eqn:Hentry;
    [|reflexivity].
  unfold bind, Date_now, Cache_get; cbn [w_cache w_ticks fst snd]. rewrite Hentry.
  destruct (ttl entry <? clock env (w_ticks w) - timestamp entry); reflexivity.
Qed.

(** [searchWeb], step by step: refused by the limiter; a live entry, which
    is returned; an expired entry, which is removed before the credential
    check fails; no entry, and the credential check fails. *)
Lemma searchWeb_eq (params : SearchParams) (w : World) :
  searchWeb env params w
  = if fst (checkLimit (clock env (w_ticks w)) (w_limiter w))
    then match cache (w_cache w) !! createCacheKey params with
         | Some entry =>
             if ttl entry <? clock env (S (w_ticks w)) - timestamp entry
             then (Throw (missing_credential env),
                   evicted (createCacheKey params) (after_check env w))
             else (Ok (with_cache_hit (data entry)), ticked (after_check env w))
         | None => (Throw (missing_credential env), after_check env w)
         end
    else (Throw (Error "Rate limit exceeded. Please try again later."),
          after_check env w).
Proof.
  rewrite searchWeb_unfold.
  destruct (fst (checkLimit (clock env (w_ticks w)) (w_limiter w))); [|reflexivity].
  unfold bind at 1. rewrite cache_get_eq. cbn [after_check w_cache w_ticks].
  destruct (cache (w_cache w) !! createCacheKey params) as [entry|].
  - destruct (ttl entry <? clock env (S (w_ticks w)) - timestamp entry).
    + apply credential_check_throws.
    + reflexivity.
  - apply credential_check_throws.
Qed.

Lemma searchWeb_state (params : SearchParams) (w : World) :
  let w' := snd (searchWeb env params w) in
  w_net w' = w_net w
  /\ w_limiter w' = prune (clock env (w_ticks w)) (w_limiter w)
  /\ (w_ticks w < w_ticks w')%nat
  /\ (w_cache w' = w_cache w
      \/ w_cache w' = Cache_delete (createCacheKey params) (w_cache w)).
Proof.
  cbv zeta. rewrite searchWeb_eq.
  destruct (fst (checkLimit (clock env (w_ticks w)) (w_limiter w))).
  - destruct (cache (w_cache w) !! createCacheKey params) as [entry|].
    + destruct (ttl entry <? clock env (S (w_ticks w)) - timestamp entry);
        cbn; repeat split; auto; lia.
    + cbn; repeat split; auto; lia.
  - cbn; repeat split; auto; lia.
Qed.

Lemma searchWeb_throws (params : SearchParams) (w : World) (e : JsError) :
  fst (searchWeb env params w) = Throw e ->
  e = Error "Rate limit exceeded. Please try again later."
  \/ e = Error "PERPLEXITY_API_KEY is not configured"
  \/ e = Error "GLM_API_KEY environment variable is required"
  \/ In (Throw e) (dotenv env).
Proof.
  rewrite searchWeb_eq.
  destruct (fst (checkLimit (clock env (w_ticks w)) (w_limiter w))).
  - destruct (cache (w_cache w) !! createCacheKey params) as [entry|].
    + destruct (ttl entry <? clock env (S (w_ticks w)) - timestamp entry);
        cbn [fst]; [|discriminate].
      intros [= <-]. right. apply missing_credential_cases.
    + cbn [fst]. intros [= <-]. right. apply missing_credential_cases.
  - cbn [fst]. intros [= <-]. now left.
Qed.

(** [generateAnswerWithSonar] ends where its evidence search ends, with the
    error of the search or, after a cached evidence, with the failure of its
    own credential check. *)
Lemma generateAnswer_eq (params : SearchParams) (w : World) :
  generateAnswerWithSonar env params w
  = (Throw match fst (searchWeb env params w) with
           | Ok _ => missing_credential env
           | Throw e => e
           end,
     snd (searchWeb env params w)).
Proof.
  unfold generateAnswerWithSonar. unfold bind at 1.
  destruct (searchWeb env params w) as [[searchResults|e] w1]; cbn [fst snd];
    [|reflexivity].
  apply credential_check_throws.
Qed.

Lemma generateAnswer_throws (params : SearchParams) (w : World) :
  exists e, fst (generateAnswerWithSonar env params w) = Throw e
            /\ (e = Error "Rate limit exceeded. Please try again later."
                \/ e = Error "PERPLEXITY_API_KEY is not configured"
                \/ e = Error "GLM_API_KEY environment variable is required"
                \/ In (Throw e) (dotenv env)).
Proof.
  rewrite generateAnswer_eq. cbn [fst].
  destruct (fst (searchWeb env params w)) as [r|e] eqn:Hsearch.
  - exists (missing_credential env). split; [reflexivity|].
    right. apply missing_credential_cases.
  - exists e. split; [reflexivity|]. apply (searchWeb_throws params w e Hsearch).
Qed.



(** C10. Two parameter sets that ask the upstream for different things have
    the same cache key: [top_k = 5] and [site = "5"] with the same query
    both give "rust|5", because the fields that are not set leave no trace
    in the key; the same holds for every query and every [top_k].  So when
    the cache holds a live response under the key of the first, an admitted
    search for the second returns that response, and sends nothing. *)
Theorem createCacheKey_collision (w : World) (entry : CacheEntry SearchWebResult) :
  let p1 := Scenario.with_top_k "rust" 5 in
  let p2 := Scenario.with_site "rust" "5" in
  p1 <> p2
  /\ build_payload p1 <> build_payload p2
  /\ createCacheKey p1 = createCacheKey p2
  /\ (forall query k,
        createCacheKey (Scenario.with_top_k query k)
        = createCacheKey (Scenario.with_site query (JS.number_to_string k)))
  /\ (cache (w_cache w) !! createCacheKey p1 = Some entry ->
      clock env (S (w_ticks w)) - timestamp entry <= ttl entry ->
      fst (checkLimit (clock env (w_ticks w)) (w_limiter w)) = true ->
      fst (searchWeb env p2 w) = Ok (with_cache_hit (data entry))
      /\ w_net (snd (searchWeb env p2 w)) = w_net w).
Proof.
  intros p1 p2.
  split; [discriminate|]. split; [discriminate|]. split; [reflexivity|].
  split; [reflexivity|].
  intros Hentry Hlive Hallow.
  rewrite (searchWeb_hit_eq env p2 w entry Hentry Hlive Hallow). split; reflexivity.
Qed.

End CredentialProps.

(** What [normalizeSonarResults] makes of the engine's [citations]: always
    an array, empty when the engine supplies none. *)
Lemma normalizeSonarResults_citations (sonarResult : option SonarRaw)
    (normalized : NormalizedSonar) :
  normalizeSonarResults sonarResult = Ok normalized ->
  match sonarResult with
  | None => n_citations normalized = []
  | Some raw =>
      match s_citations raw with
      | None => n_citations normalized = []
      | Some cs => exists cs', mapM id cs = Some cs'
                               /\ n_citations normalized = map normalizeCitation cs'
      end
  end.
Proof.
  unfold normalizeSonarResults. destruct sonarResult as [raw|].
  - destruct (extract_answer raw); [|discriminate].
    destruct (s_citations raw) as [cs|].
    + destruct (mapM id cs) as [cs'|]; [|discriminate].
      intros [= <-]. eauto.
    + intros [= <-]. reflexivity.
  - intros [= <-]. reflexivity.
Qed.

(** ** Runs of the client on the concrete world *)

Module Runs.
Import Scenario.

#[local] Existing Instance RefURL.api.

(** The spec's scenario: two results on [a.example] with distinct titles,
    deduplicated by domain, leave the first one. *)
Example dedupe_domain_keeps_first :
  title <$> deduplicateResults
              [ {| title := "Ownership"; url := "https://a.example/x"; snippet := "";
                   published_at := None; source := None; score := None |};
                {| title := "Borrowing"; url := "https://a.example/y"; snippet := "";
                   published_at := None; source := None; score := None |} ]
              domain
  = ["Ownership"].
Proof. vm_compute. reflexivity. Qed.

Lemma searchWeb_refused_immediately_witness :
  fst (searchWeb env_up (just "rust") saturated)
  = Throw (Error "Rate limit exceeded. Please try again later.")
  /\ w_net (snd (searchWeb env_up (just "rust") saturated)) = [].
Proof.
  destruct (searchWeb_refused_immediately env_up (just "rust") saturated) as [Heq _].
  - vm_compute. reflexivity.
  - rewrite Heq. split; reflexivity.
Defined.

(** C3, the claim as stated fails: with the limiter full, the error that
    [searchWeb] throws has no [code], so its code is not RATE_LIMIT_EXCEEDED. *)
Lemma searchWeb_refusal_has_no_code :
  fst (checkLimit (clock env_up (w_ticks saturated)) (w_limiter saturated)) = false
  /\ exists e, fst (searchWeb env_up (just "rust") saturated) = Throw e
               /\ err_code e = None
               /\ err_code e <> Some (code_string RATE_LIMIT_EXCEEDED).
Proof.
  split; [vm_compute; reflexivity|].
  eexists. split; [vm_compute; reflexivity|].
  split; [reflexivity | discriminate].
Qed.

Lemma searchWeb_cache_hit_witness :
  let run := searchWeb env_up (with_top_k "rust" 5) warm in
  fst run = Ok (with_cache_hit stored)
  /\ (forall r, fst run = Ok r -> cache_hit (meta r) = true /\ results r = results stored)
  /\ (length (requests (w_limiter (snd run))) <= length (requests (w_limiter warm)))%nat
  /\ w_cache (snd run) = w_cache warm
  /\ w_net (snd run) = w_net warm.
Proof.
  intros run.
  destruct (searchWeb_cache_hit env_up (with_top_k "rust" 5) warm
              {| data := stored; timestamp := 900; ttl := 1800000 |})
    as (Hok & Hfields & Hlen & Hcache & Hnet).
  - vm_compute. reflexivity.
  - vm_compute. discriminate.
  - split; [apply Hok; vm_compute; reflexivity|].
    split; [|auto].
    intros r Hr. destruct (Hfields r Hr) as (Hres & _ & _ & _ & Hhit & _). auto.
Defined.

Lemma searchWeb_failure_leaves_state_witness :
  let run := searchWeb env_up (just "rust") warm in
  fst run = Throw (Error "PERPLEXITY_API_KEY is not configured")
  /\ w_limiter (snd run) = prune 1000 (w_limiter warm)
  /\ (forall k entry, cache (w_cache (snd run)) !! k = Some entry ->
                      cache (w_cache warm) !! k = Some entry)
  /\ cache (w_cache (snd run)) !! createCacheKey (just "rust") = None.
Proof.
  intros run.
  assert (Hthrow : fst run = Throw (Error "PERPLEXITY_API_KEY is not configured")).
  { vm_compute. reflexivity. }
  destruct (searchWeb_failure_leaves_state env_up (just "rust") warm _ Hthrow)
    as (Hsub & _ & _ & Hlim & _).
  split; [exact Hthrow|]. split; [exact Hlim|]. split; [exact Hsub|].
  vm_compute. reflexivity.
Defined.



Lemma createCacheKey_collision_witness :
  let run := searchWeb env_up (with_site "rust" "5") warm in
  fst run = Ok (with_cache_hit stored)
  /\ w_net (snd run) = []
  /\ meta_top_k (meta stored) = 5
  /\ p_top_k (build_payload (with_site "rust" "5")) = 10
  /\ p_site (build_payload (with_top_k "rust" 5)) = None.
Proof.
  intros run.
  destruct (createCacheKey_collision env_up warm
              {| data := stored; timestamp := 900; ttl := 1800000 |})
    as (_ & _ & _ & _ & Hserve).
  destruct Hserve as [Hfst Hnet].
  - vm_compute. reflexivity.
  - vm_compute. discriminate.
  - vm_compute. reflexivity.
  - split; [exact Hfst|]. split; [exact Hnet|]. repeat split.
Defined.

End Runs.

(** * Further properties of the components *)

(** ** Cache: reads, expiry and the sweep *)

Section CacheProps.
Context {A : Type}.
Implicit Types (c : Cache A) (key : string) (now : Z).

(** X1. [get] returns the stored data exactly when the key has an entry
    whose age does not exceed its ttl; a read that returns nothing leaves
    the key absent (an expired entry is removed), a read that returns data
    leaves the cache as it was, and no read touches another key. *)
Theorem Cache_get_lazy_expiry now key c :
  (forall d, fst (Cache_get now key c) = Some d
             <-> exists entry, cache c !! key = Some entry /\ data entry = d
                               /\ ~ expired now entry)
  /\ (fst (Cache_get now key c) = None ->
      cache (snd (Cache_get now key c)) !! key = None)
  /\ (is_Some (fst (Cache_get now key c)) -> snd (Cache_get now key c) = c)
  /\ (forall other, other <> key ->
        cache (snd (Cache_get now key c)) !! other = cache c !! other)
  /\ defaultTtl (snd (Cache_get now key c)) = defaultTtl c.
Proof.
  unfold Cache_get, expired.
  destruct (cache c !! key) as [entry|] eqn:Hentry.
  - destruct (Z.ltb_spec (ttl entry) (now - timestamp entry)) as [Hexp|Hlive];
      cbn [fst snd cache defaultTtl].
    + split; [|split; [|split; [|split]]].
      * intros d. split; [discriminate|].
        intros (e & [= <-] & _ & Hne). contradiction.
      * intros _. apply lookup_delete_eq.
      * intros [d Hd]. discriminate.
      * intros other Hne. now apply lookup_delete_ne.
      * reflexivity.
    + split; [|split; [|split; [|split]]].
      * intros d. split.
        -- intros [= <-]. exists entry. split; [reflexivity|]. split; [reflexivity|lia].
        -- intros (e & [= <-] & <- & _). reflexivity.
      * discriminate.
      * reflexivity.
      * reflexivity.
      * reflexivity.
  - cbn [fst snd]. split; [|split; [|split; [|split]]]; try reflexivity.
    + intros d. split; [discriminate|]. intros (e & He & _). discriminate.
    + intros _. exact Hentry.
Qed.

(** X2. Round trip: what [set] stored at time [now] is returned by a [get]
    at time [now'] as long as [now' - now] does not exceed the stored ttl
    (the supplied one, or [defaultTtl] when absent or zero), and the cache
    is left as [set] made it; after that the [get] returns nothing and the
    key is gone. *)
Theorem Cache_set_then_get now now' key (d : A) (ttl_arg : option Z) c :
  let stored := Cache_set now key d ttl_arg c in
  let lifetime := ttl_or_default ttl_arg (defaultTtl c) in
  (now' - now <= lifetime -> Cache_get now' key stored = (Some d, stored))
  /\ (lifetime < now' - now ->
      fst (Cache_get now' key stored) = None
      /\ cache (snd (Cache_get now' key stored)) !! key = None).
Proof.
  intros stored lifetime. unfold Cache_get, stored, Cache_set.
  cbn [cache defaultTtl]. rewrite lookup_insert_eq. cbn [ttl timestamp data].
  fold lifetime. split; intros Hage.
  - destruct (Z.ltb_spec lifetime (now' - now)); [lia | reflexivity].
  - destruct (Z.ltb_spec lifetime (now' - now)); [|lia].
    cbn [fst snd cache]. split; [reflexivity | apply lookup_delete_eq].
Qed.

Lemma Cache_cleanup_lookup now c (k : string) (entry : CacheEntry A) :
  cache (Cache_cleanup now c) !! k = Some entry
  <-> cache c !! k = Some entry /\ ~ expired now entry.
Proof.
  unfold Cache_cleanup, expired. cbn [cache].
  rewrite map_lookup_filter_Some. reflexivity.
Qed.

(** X3. The periodic sweep removes exactly the entries that are expired at
    the time it runs and keeps every other entry as it is; it is invisible
    to readers: a [get] at that time or later returns the same with or
    without the sweep before it. *)
Theorem Cache_cleanup_only_expired now c :
  (forall k entry, cache (Cache_cleanup now c) !! k = Some entry
                   <-> cache c !! k = Some entry /\ ~ expired now entry)
  /\ (forall now' key, now <= now' ->
        fst (Cache_get now' key (Cache_cleanup now c)) = fst (Cache_get now' key c))
  /\ defaultTtl (Cache_cleanup now c) = defaultTtl c.
Proof.
  split; [|split]; [apply Cache_cleanup_lookup | | reflexivity].
  intros now' key Hlater. unfold Cache_get.
  destruct (cache c !! key) as [entry|] eqn:Hentry.
  - destruct (Z.ltb_spec (ttl entry) (now - timestamp entry)) as [Hexp|Hlive].
    + assert (Hgone : cache (Cache_cleanup now c) !! key = None).
      { destruct (cache (Cache_cleanup now c) !! key) as [e|] eqn:E; [|reflexivity].
        apply Cache_cleanup_lookup in E as [E Hne]. unfold expired in Hne.
        assert (e = entry) by congruence. subst e. lia. }
      rewrite Hgone.
      destruct (Z.ltb_spec (ttl entry) (now' - timestamp entry)); [reflexivity|lia].
    + assert (Hkept : cache (Cache_cleanup now c) !! key = Some entry).
      { apply Cache_cleanup_lookup. unfold expired. split; [assumption|lia]. }
      rewrite Hkept.
      destruct (ttl entry <? now' - timestamp entry); reflexivity.
  - assert (Hgone : cache (Cache_cleanup now c) !! key = None).
    { destruct (cache (Cache_cleanup now c) !! key) as [e|] eqn:E; [|reflexivity].
      apply Cache_cleanup_lookup in E as [E _]. congruence. }
    now rewrite Hgone.
Qed.

End CacheProps.

Lemma Cache_set_then_get_witness :
  let stored := Cache_set 1000 "k" "payload" None {| cache := ∅; defaultTtl := 1800000 |} in
  Cache_get 1801000 "k" stored = (Some "payload", stored)
  /\ fst (Cache_get 1801001 "k" stored) = None.
Proof.
  intros stored.
  destruct (Cache_set_then_get 1000 1801000 "k" "payload" None
              {| cache := ∅; defaultTtl := 1800000 |})
    as [Hlive _].
  destruct (Cache_set_then_get 1000 1801001 "k" "payload" None
              {| cache := ∅; defaultTtl := 1800000 |})
    as [_ Hdead].
  split.
  - apply Hlive. vm_compute. discriminate.
  - apply Hdead. vm_compute. reflexivity.
Defined.

Lemma Cache_cleanup_only_expired_witness :
  let stored := Cache_set 1000 "k" "payload" (Some 50)
                  {| cache := ∅; defaultTtl := 1800000 |} in
  fst (Cache_get 2000 "k" (Cache_cleanup 1500 stored)) = fst (Cache_get 2000 "k" stored).
Proof.
  intros stored.
  destruct (Cache_cleanup_only_expired 1500 stored) as (_ & Hread & _).
  apply Hread. lia.
Defined.

(** ** helpers.ts: what [getEnv] reads and returns *)

Lemma assign_files_last (files : list (Result (gmap string string)))
    (file : gmap string string) (name value : string) :
  file !! name = Some value ->
  forall base vars,
    assign_files base (files ++ [Ok file])%list = Ok vars -> vars !! name = Some value.
Proof.
  intros Hfile. induction files as [|[f|e] files IH]; intros base vars; cbn.
  - intros [= <-]. now apply lookup_union_Some_l.
  - apply IH.
  - discriminate.
Qed.

Lemma assign_files_unset (files : list (Result (gmap string string))) (name : string) :
  Forall (fun f => match f with
                   | Ok file => file !! name = None
                   | Throw _ => True
                   end) files ->
  forall base vars, assign_files base files = Ok vars -> vars !! name = base !! name.
Proof.
  induction 1 as [|[file|e] files Hfile _ IH]; intros base vars; cbn.
  - now intros [= <-].
  - intros Hrest. rewrite (IH _ _ Hrest). now apply lookup_union_r.
  - discriminate.
Qed.

Lemma object_literal_head (name : string) (value : option string)
    (props : list (string * option string)) :
  ~ In name (map fst props) ->
  object_literal ((name, value) :: props) !! name = value.
Proof.
  intros Hnot. change (object_literal ((name, value) :: props))
    with (match value with
          | Some v => <[name := v]> (object_literal props)
          | None => object_literal props
          end).
  destruct value as [v|]; [apply lookup_insert_eq|].
  apply object_literal_lookup, List.Forall_forall. intros prop Hin Heq.
  apply Hnot. rewrite <- Heq. apply in_map, Hin.
Qed.

Lemma object_literal_tail (name other : string) (value : option string)
    (props : list (string * option string)) :
  other <> name ->
  object_literal ((other, value) :: props) !! name = object_literal props !! name.
Proof.
  intros Hne. change (object_literal ((other, value) :: props))
    with (match value with
          | Some v => <[other := v]> (object_literal props)
          | None => object_literal props
          end).
  destruct value as [v|]; [now apply lookup_insert_ne | reflexivity].
Qed.

(** X24. [getEnv] throws when a .env file cannot be read, with that error,
    and when GLM_API_KEY is unset or empty after the .env files have been
    laid over [process.env] (a later file over an earlier one), with
    "GLM_API_KEY environment variable is required".  Otherwise it returns an
    object with six properties and no other: whatever the environment sets,
    the object has no PERPLEXITY_API_KEY and no WEB_SEARCH_TIMEOUT_MS. *)
Theorem getEnv_six_properties (env : Env) :
  (forall e, getEnv env = Throw e
             <-> envConfig env = Throw e
                 \/ (e = Error "GLM_API_KEY environment variable is required"
                     /\ exists vars, envConfig env = Ok vars
                                     /\ or_null (vars !! "GLM_API_KEY") = None))
  /\ (forall cfg, getEnv env = Ok cfg ->
        exists vars,
          envConfig env = Ok vars
          /\ or_null (vars !! "GLM_API_KEY") <> None
          /\ (forall name,
                In name [ "GLM_API_KEY"; "GLM_IMAGE_MODEL"; "GLM_VIDEO_MODEL";
                          "GLM_GENERATION_MODEL"; "SIYUAN_API_TOKEN" ] ->
                cfg !! name = vars !! name)
          /\ cfg !! "SIYUAN_API_BASE"
             = Some (match or_null (vars !! "SIYUAN_API_BASE") with
                     | Some base => base
                     | None => "http://127.0.0.1:6806"
                     end)
          /\ (forall name,
                ~ In name [ "GLM_API_KEY"; "GLM_IMAGE_MODEL"; "GLM_VIDEO_MODEL";
                            "GLM_GENERATION_MODEL"; "SIYUAN_API_TOKEN";
                            "SIYUAN_API_BASE" ] ->
                cfg !! name = None)
          /\ PERPLEXITY_API_KEY cfg = None
          /\ WEB_SEARCH_TIMEOUT_MS cfg = None)
  /\ (forall e, envConfig env = Throw e -> In (Throw e) (dotenv env))
  /\ (forall vars files file name value,
        envConfig env = Ok vars ->
        dotenv env = (files ++ [Ok file])%list -> file !! name = Some value ->
        vars !! name = Some value)
  /\ (forall vars name,
        envConfig env = Ok vars ->
        Forall (fun f => match f with
                         | Ok file => file !! name = None
                         | Throw _ => True
                         end) (dotenv env) ->
        vars !! name = process_env env !! name).
Proof.
  split; [|split; [|split; [|split]]].
  - intros e. unfold getEnv. destruct (envConfig env) as [vars|e0].
    + destruct (or_null (vars !! "GLM_API_KEY")) eqn:Hkey.
      * split; [discriminate|].
        intros [Hbad | (_ & vars' & [= <-] & Hnone)]; [discriminate Hbad | congruence].
      * split.
        -- intros [= <-]. right. split; [reflexivity|]. exists vars. auto.
        -- intros [Hbad | (-> & _)]; [discriminate Hbad | reflexivity].
    + split.
      * intros [= <-]. now left.
      * intros [[= <-] | (_ & vars & Hbad & _)]; [reflexivity | discriminate Hbad].
  - intros cfg Hcfg.
    destruct (getEnv_no_credential env cfg Hcfg) as [Hkey Htimeout].
    pose proof (getEnv_cases env) as Hcases. rewrite Hcfg in Hcases.
    destruct Hcases as (vars & Hvars & Hglm & ->).
    exists vars. split; [exact Hvars|]. split; [exact Hglm|].
    split; [|split; [|split; [|split]]]; try assumption.
    + intros name Hname. unfold getEnv_result.
      destruct Hname as [<-|[<-|[<-|[<-|[<-|[]]]]]];
        repeat (rewrite object_literal_tail by discriminate);
        apply object_literal_head; cbn; intuition discriminate.
    + unfold getEnv_result.
      repeat (rewrite object_literal_tail by discriminate).
      apply object_literal_head. cbn. tauto.
    + apply getEnv_result_names.
  - intros e. apply assign_files_throws.
  - intros vars files file name value Hvars Hfiles Hfile.
    unfold envConfig in Hvars. rewrite Hfiles in Hvars.
    exact (assign_files_last files file name value Hfile _ _ Hvars).
  - intros vars name Hvars Hnone.
    exact (assign_files_unset (dotenv env) name Hnone _ _ Hvars).
Qed.

Lemma getEnv_six_properties_witness :
  exists cfg vars,
    getEnv Scenario.env_up = Ok cfg
    /\ envConfig Scenario.env_up = Ok vars
    /\ vars !! "PERPLEXITY_API_KEY" = Some "pplx-key"
    /\ PERPLEXITY_API_KEY cfg = None
    /\ cfg !! "GLM_API_KEY" = Some "glm-key".
Proof.
  destruct (getEnv_returns Scenario.env_up) as [cfg Hcfg]; [vm_compute; exact I|].
  destruct (getEnv_six_properties Scenario.env_up) as (_ & Hobject & _).
  destruct (Hobject cfg Hcfg) as (vars & Hvars & _ & Hsame & _ & _ & Hkey & _).
  exists cfg, vars. split; [exact Hcfg|]. split; [exact Hvars|].
  assert (Hcomputed : envConfig Scenario.env_up
                      = Ok ({[ "WEB_SEARCH_RATE_LIMIT" := "3"; "WEB_SEARCH_CACHE_TTL" := "5" ]}
                            ∪ process_env Scenario.env_up)) by reflexivity.
  rewrite Hcomputed in Hvars. injection Hvars as <-.
  split; [vm_compute; reflexivity|]. split; [exact Hkey|].
  rewrite Hsame by (cbn; tauto). vm_compute. reflexivity.
Defined.

(** ** The constructors of the two singletons *)

(** X4. The constructor of [RateLimiter] never sees WEB_SEARCH_RATE_LIMIT,
    WEB_SEARCH_RATE_WINDOW_MS or WEB_SEARCH_RETRY_AFTER_MS: [getEnv] ignores
    the name it is called with and [parseInt] of the object it returns is
    NaN.  Whatever the environment holds, the constructor yields an empty
    limiter with limit 5, window 1000 ms and retry-after 1000 ms, or throws
    the error of [getEnv]. *)
Theorem RateLimiter_new_ignores_configuration (env : Env) :
  RateLimiter_new env
  = match getEnv env with
    | Ok _ => Ok {| requests := []; limit := 5; windowMs := 1000; retryAfterMs := 1000 |}
    | Throw e => Throw e
    end.
Proof.
  unfold RateLimiter_new, getEnv_number. destruct (getEnv env); reflexivity.
Qed.


Lemma RateLimiter_new_ignores_configuration_witness :
  dotenv Scenario.env_up
  = [ Ok {[ "WEB_SEARCH_RATE_LIMIT" := "3"; "WEB_SEARCH_CACHE_TTL" := "5" ]} ]
  /\ RateLimiter_new Scenario.env_up
     = Ok {| requests := []; limit := 5; windowMs := 1000; retryAfterMs := 1000 |}
  /\ RateLimiter_new Scenario.env_bare
     = Throw (Error "GLM_API_KEY environment variable is required").
Proof.
  split; [reflexivity|].
  rewrite (RateLimiter_new_ignores_configuration Scenario.env_up).
  rewrite (RateLimiter_new_ignores_configuration Scenario.env_bare).
  split; vm_compute; reflexivity.
Defined.


(** ** Rate limiter: how long to wait *)

Lemma Math_min_least (xs : list Z) (m : Z) :
  Math_min xs = Finite m -> In m xs /\ forall x, In x xs -> m <= x.
Proof.
  destruct xs as [|x rest]; [discriminate|]. cbn [Math_min]. intros [= <-].
  induction rest as [|y rest IH]; cbn [fold_right].
  - split; [now left|]. intros z [<-|[]]. lia.
  - destruct IH as [Hin Hle]. split.
    + destruct (Z.min_spec y (fold_right Z.min x rest)) as [[_ ->]|[_ ->]].
      * right. now left.
      * destruct Hin as [<-|Hin]; [now left | right; now right].
    + intros z [<-|[<-|Hz]].
      * specialize (Hle x (or_introl eq_refl)). lia.
      * lia.
      * specialize (Hle z (or_intror Hz)). lia.
Qed.

Lemma filter_drops_one (f : Z -> bool) (xs : list Z) (x : Z) :
  In x xs -> f x = false -> (length (List.filter f xs) < length xs)%nat.
Proof.
  induction xs as [|y ys IH]; [intros []|]. intros [<-|Hin] Hf; cbn.
  - rewrite Hf. pose proof (List.filter_length_le f ys). lia.
  - destruct (f y); cbn; specialize (IH Hin Hf); lia.
Qed.

Lemma getTimeToWait_checkLimit (now : Z) (rl : RateLimiter) :
  0 < retryAfterMs rl ->
  (fst (getTimeToWait now rl) = Finite 0 <-> fst (checkLimit now rl) = true)
  /\ snd (getTimeToWait now rl) = snd (checkLimit now rl).
Proof.
  intros Hretry. unfold getTimeToWait, checkLimit. cbv zeta.
  destruct (Z.ltb_spec (Z.of_nat (length (requests (prune now rl)))) (limit (prune now rl)))
    as [Hlt|Hge]; cbn [fst snd]; [tauto|].
  destruct (Math_min (requests (prune now rl))) as [m|]; cbn [fst snd].
  - change (retryAfterMs (prune now rl)) with (retryAfterMs rl).
    split; [|reflexivity]. split; [|discriminate]. intros [= Hz]. lia.
  - split; [|reflexivity]. split; discriminate.
Qed.

(** X6. With a positive retry-after time, [getTimeToWait] is 0 exactly when
    [checkLimit] would admit at the same instant, and it prunes the limiter
    just as [checkLimit] does; when the limiter is full the answer is at
    least the retry-after time and at least the time until the oldest
    recorded request leaves the window. *)
Theorem getTimeToWait_zero_iff_allowed (now : Z) (rl : RateLimiter) :
  0 < retryAfterMs rl ->
  (fst (getTimeToWait now rl) = Finite 0 <-> fst (checkLimit now rl) = true)
  /\ snd (getTimeToWait now rl) = snd (checkLimit now rl)
  /\ (fst (checkLimit now rl) = false ->
      match fst (getTimeToWait now rl) with
      | Finite t =>
          retryAfterMs rl <= t
          /\ exists oldest, In oldest (requests (prune now rl))
                            /\ (forall x, In x (requests (prune now rl)) -> oldest <= x)
                            /\ oldest + windowMs rl - now <= t
      | Infinity => requests (prune now rl) = [] /\ limit rl <= 0
      end).
Proof.
  intros Hretry. unfold getTimeToWait, checkLimit. cbv zeta.
  destruct (Z.ltb_spec (Z.of_nat (length (requests (prune now rl)))) (limit (prune now rl)))
    as [Hlt|Hge]; cbn [fst snd].
  - split; [tauto|]. split; [reflexivity | discriminate].
  - destruct (Math_min (requests (prune now rl))) as [m|] eqn:Hmin; cbn [fst snd].
    + apply Math_min_least in Hmin as [Hin Hle].
      change (windowMs (prune now rl)) with (windowMs rl).
      change (retryAfterMs (prune now rl)) with (retryAfterMs rl).
      split; [|split; [reflexivity|]].
      * split; [|discriminate]. intros [= Hz]. lia.
      * intros _. split; [lia|]. exists m. repeat split; [assumption|assumption|lia].
    + split; [|split; [reflexivity|]].
      * split; discriminate.
      * intros _. destruct (requests (prune now rl)); [|discriminate].
        split; [reflexivity|]. cbn in Hge. exact Hge.
Qed.

Lemma getTimeToWait_zero_iff_allowed_witness :
  let rl := {| requests := [900; 910; 920; 930; 940];
               limit := 5; windowMs := 1000; retryAfterMs := 1000 |} in
  fst (getTimeToWait 1000 rl) = Finite 1000 /\ fst (checkLimit 1000 rl) = false.
Proof.
  intros rl.
  destruct (getTimeToWait_zero_iff_allowed 1000 rl) as (Hiff & _ & _); [reflexivity|].
  split; [reflexivity|].
  apply not_true_is_false. intros E. apply Hiff in E. discriminate E.
Defined.

(** X7. Waiting is enough: if the limiter holds no more requests than its
    positive limit and [getTimeToWait] answers [t], then a [checkLimit] made
    [t] milliseconds later, or any time after that, admits the call as long
    as nothing was recorded in between. *)
Theorem getTimeToWait_then_allowed (now later t : Z) (rl : RateLimiter) :
  0 < limit rl ->
  Z.of_nat (length (requests rl)) <= limit rl ->
  fst (getTimeToWait now rl) = Finite t ->
  now + t <= later ->
  fst (checkLimit later (snd (getTimeToWait now rl))) = true.
Proof.
  intros Hlimit Hfill Hwait Hlater.
  pose proof (prune_length now rl) as Hlen.
  revert Hwait. unfold getTimeToWait, checkLimit. cbv zeta.
  destruct (Z.ltb_spec (Z.of_nat (length (requests (prune now rl)))) (limit (prune now rl)))
    as [Hlt|Hge]; cbn [fst snd].
  - intros _. apply Z.ltb_lt.
    pose proof (prune_length later (prune now rl)). cbn [limit prune] in *. lia.
  - destruct (Math_min (requests (prune now rl))) as [m|] eqn:Hmin; [|discriminate].
    cbn [fst snd]. intros [= <-].
    apply Math_min_least in Hmin as [Hin _].
    apply Z.ltb_lt. cbn [limit prune requests] in *.
    assert (Hdrop : (later - m <? windowMs rl) = false) by (apply Z.ltb_ge; lia).
    pose proof (filter_drops_one (fun ts => later - ts <? windowMs rl) _ m Hin Hdrop).
    change (windowMs (prune now rl)) with (windowMs rl). lia.
Qed.

Lemma getTimeToWait_then_allowed_witness :
  let rl := {| requests := [100; 910; 920; 930; 940];
               limit := 5; windowMs := 1000; retryAfterMs := 50 |} in
  fst (getTimeToWait 1000 rl) = Finite 100
  /\ fst (checkLimit 1100 (snd (getTimeToWait 1000 rl))) = true.
Proof.
  intros rl. split; [reflexivity|].
  apply (getTimeToWait_then_allowed 1000 1100 100 rl).
  - reflexivity.
  - vm_compute. discriminate.
  - reflexivity.
  - vm_compute. discriminate.
Defined.

(** X8. [getStatus] reports the number of requests inside the window at its
    own clock reading and whether that is below the limit; when no time
    passes before the nested [getTimeToWait] reads the clock, the reported
    waiting time is 0 exactly when [isAllowed] is true. *)
Theorem getStatus_consistent (now : Z) (rl : RateLimiter) :
  0 < retryAfterMs rl ->
  let st := fst (getStatus now now rl) in
  current st = length (requests (prune now rl))
  /\ (isAllowed st = true <-> Z.of_nat (current st) < limit rl)
  /\ (timeToWait st = Finite 0 <-> isAllowed st = true)
  /\ snd (getStatus now now rl) = prune now rl.
Proof.
  intros Hretry st.
  assert (Hidem : prune now (prune now rl) = prune now rl).
  { unfold prune. cbn [requests limit windowMs retryAfterMs]. f_equal.
    induction (requests rl) as [|x xs IH]; cbn; [reflexivity|].
    destruct (now - x <? windowMs rl) eqn:E; cbn; [rewrite E; f_equal|]; exact IH. }
  destruct (getTimeToWait_checkLimit now (prune now rl) Hretry) as (Hzero & Hsnd).
  subst st. unfold getStatus. cbv zeta.
  destruct (getTimeToWait now (prune now rl)) as [wait rl2] eqn:Hw.
  cbn [fst snd current isAllowed timeToWait] in *.
  split; [reflexivity|]. split; [apply Z.ltb_lt|]. split.
  - rewrite Hzero. unfold checkLimit. cbn [fst]. rewrite Hidem. reflexivity.
  - rewrite Hsnd. unfold checkLimit. cbn [snd]. exact Hidem.
Qed.

Lemma getStatus_consistent_witness :
  let rl := {| requests := [100; 910; 920]; limit := 2; windowMs := 1000;
               retryAfterMs := 1000 |} in
  current (fst (getStatus 1150 1150 rl)) = 2%nat
  /\ isAllowed (fst (getStatus 1150 1150 rl)) = false.
Proof.
  intros rl.
  destruct (getStatus_consistent 1150 rl) as (Hcur & _ & _ & _); [reflexivity|].
  split; [rewrite Hcur; reflexivity | reflexivity].
Defined.

(** ** Security filter: the CIDR test on 32-bit integers *)

Lemma ToInt32_small (z : Z) : - 2 ^ 31 <= z < 2 ^ 31 -> JS.ToInt32 z = z.
Proof.
  unfold JS.ToInt32. cbv zeta.
  change (2 ^ 31) with 2147483648. change (2 ^ 32) with 4294967296.
  intros Hz. destruct (Z.leb_spec 2147483648 (z mod 4294967296));
    Z.div_mod_to_equations; lia.
Qed.

Lemma ToInt32_unsigned (v : Z) :
  0 <= v < 2 ^ 32 ->
  JS.ToInt32 v = if v <? 2 ^ 31 then v else v - 2 ^ 32.
Proof.
  unfold JS.ToInt32. cbv zeta.
  change (2 ^ 31) with 2147483648. change (2 ^ 32) with 4294967296.
  intros Hv. rewrite (Z.mod_small v) by lia.
  destruct (Z.leb_spec 2147483648 v), (Z.ltb_spec v 2147483648); lia.
Qed.

Lemma shl_octet (o k : Z) :
  0 <= o <= 255 -> 0 <= k <= 24 -> JS.shl o k = JS.ToInt32 (o * 2 ^ k).
Proof.
  intros Ho Hk. unfold JS.shl.
  rewrite (ToInt32_small o) by (change (2 ^ 31) with 2147483648; lia).
  rewrite (Z.mod_small k 32) by lia.
  now rewrite Z.shiftl_mul_pow2 by lia.
Qed.

Lemma ip_value_range (octets : list Z) :
  valid_octets octets -> 0 <= ip_value octets < 2 ^ 32.
Proof.
  intros [Hlen Hall].
  destruct octets as [|a [|b [|c [|d [|]]]]]; try discriminate.
  inversion Hall as [|? ? Ha Hall1]; inversion Hall1 as [|? ? Hb Hall2];
    inversion Hall2 as [|? ? Hc Hall3]; inversion Hall3 as [|? ? Hd _]; subst.
  cbn [ip_value].
  change (2 ^ 32) with 4294967296. change (2 ^ 24) with 16777216.
  change (2 ^ 16) with 65536. change (2 ^ 8) with 256. lia.
Qed.

(** The sum of shifted octets is the signed reading of the address. *)
Lemma ip_to_int_value (octets : list Z) :
  valid_octets octets -> ip_to_int octets = JS.ToInt32 (ip_value octets).
Proof.
  intros Hvalid. pose proof (ip_value_range octets Hvalid) as Hrange.
  destruct Hvalid as [Hlen Hall].
  destruct octets as [|a [|b [|c [|d [|]]]]]; try discriminate.
  inversion Hall as [|? ? Ha Hall1]; inversion Hall1 as [|? ? Hb Hall2];
    inversion Hall2 as [|? ? Hc Hall3]; inversion Hall3 as [|? ? Hd _]; subst.
  rewrite ToInt32_unsigned by exact Hrange.
  cbn [ip_to_int ip_value] in *.
  rewrite !shl_octet by lia.
  change (2 ^ 32) with 4294967296 in *. change (2 ^ 31) with 2147483648 in *.
  change (2 ^ 24) with 16777216 in *.
  change (2 ^ 16) with 65536 in *. change (2 ^ 8) with 256 in *.
  rewrite (ToInt32_small (b * 65536)) by (change (2 ^ 31) with 2147483648; lia).
  rewrite (ToInt32_small (c * 256)) by (change (2 ^ 31) with 2147483648; lia).
  rewrite (ToInt32_unsigned (a * 16777216))
    by (change (2 ^ 32) with 4294967296; lia).
  change (2 ^ 32) with 4294967296 in *. change (2 ^ 31) with 2147483648 in *.
  destruct (Z.ltb_spec (a * 16777216) 2147483648),
    (Z.ltb_spec (a * 16777216 + b * 65536 + c * 256 + d) 2147483648); lia.
Qed.

(** The subnet mask for a host part of [k] bits. *)
Lemma subnet_mask (k : Z) :
  0 <= k <= 31 -> JS.not (JS.shl 1 k - 1) = - 2 ^ k.
Proof.
  intros Hk.
  assert (Hcases : exists n : nat, (n < 32)%nat /\ k = Z.of_nat n).
  { exists (Z.to_nat k). lia. }
  destruct Hcases as (n & Hn & ->).
  do 32 (destruct n as [|n]; [vm_compute; reflexivity|]). lia.
Qed.

Lemma land_neg_pow2 (s k : Z) :
  0 <= k -> Z.land s (- 2 ^ k) = 2 ^ k * (s / 2 ^ k).
Proof.
  intros Hk.
  replace (- 2 ^ k) with (Z.lnot (Z.ones k))
    by (unfold Z.lnot; rewrite Z.ones_equiv; lia).
  rewrite <- Z.ldiff_land, Z.ldiff_ones_r by lia.
  rewrite Z.shiftl_mul_pow2, Z.shiftr_div_pow2 by lia. ring.
Qed.

(** Masking an int32 clears its low [k] bits. *)
Lemma and_mask (x k : Z) :
  0 <= k <= 31 -> - 2 ^ 31 <= x < 2 ^ 31 ->
  JS.and x (- 2 ^ k) = 2 ^ k * (x / 2 ^ k).
Proof.
  intros Hk Hx. unfold JS.and.
  assert (Hpow : 1 <= 2 ^ k <= 2 ^ 31).
  { split; [pose proof (Z.pow_pos_nonneg 2 k); lia|].
    apply Z.pow_le_mono_r; lia. }
  assert (Hdiv : 2 ^ 31 = 2 ^ k * 2 ^ (31 - k)).
  { rewrite <- Z.pow_add_r by lia. f_equal. lia. }
  rewrite (ToInt32_small x) by exact Hx.
  rewrite (ToInt32_small (- 2 ^ k)) by lia.
  rewrite land_neg_pow2 by lia.
  apply ToInt32_small.
  pose proof (Z.mul_div_le x (2 ^ k)) as Hle.
  assert (- 2 ^ (31 - k) <= x / 2 ^ k).
  { apply Z.div_le_lower_bound; [lia|]. rewrite Z.mul_opp_r, <- Hdiv. lia. }
  nia.
Qed.

(** Two addresses agree under the mask exactly when their unsigned values
    agree above the low [k] bits. *)
Lemma masked_equal (v1 v2 k : Z) :
  0 <= k <= 31 -> 0 <= v1 < 2 ^ 32 -> 0 <= v2 < 2 ^ 32 ->
  (JS.and (JS.ToInt32 v1) (- 2 ^ k) =? JS.and (JS.ToInt32 v2) (- 2 ^ k))
  = (v1 / 2 ^ k =? v2 / 2 ^ k).
Proof.
  intros Hk H1 H2.
  assert (Hs : forall v, 0 <= v < 2 ^ 32 ->
                 - 2 ^ 31 <= JS.ToInt32 v < 2 ^ 31
                 /\ JS.ToInt32 v / 2 ^ k
                    = v / 2 ^ k - (if v <? 2 ^ 31 then 0 else 2 ^ (32 - k))).
  { intros v Hv. rewrite ToInt32_unsigned by exact Hv.
    change (2 ^ 32) with 4294967296 in *. change (2 ^ 31) with 2147483648 in *.
    destruct (Z.ltb_spec v 2147483648); [split; [lia|]; lia|].
    split; [lia|].
    replace (v - 4294967296) with (v + (- 2 ^ (32 - k)) * 2 ^ k).
    - rewrite Z.div_add by (pose proof (Z.pow_pos_nonneg 2 k); lia). lia.
    - rewrite Z.mul_opp_l, <- Z.pow_add_r by lia.
      replace (32 - k + k) with 32 by lia. reflexivity. }
  destruct (Hs v1 H1) as [R1 Q1], (Hs v2 H2) as [R2 Q2].
  rewrite !and_mask by assumption.
  assert (Hpos : 0 < 2 ^ k) by (apply Z.pow_pos_nonneg; lia).
  assert (Htop : forall v, 0 <= v < 2 ^ 32 ->
                   (v <? 2 ^ 31) = (v / 2 ^ k <? 2 ^ (31 - k))).
  { intros v Hv.
    assert (Hsplit : 2 ^ 31 = 2 ^ (31 - k) * 2 ^ k).
    { rewrite <- Z.pow_add_r by lia. f_equal. lia. }
    destruct (Z.ltb_spec v (2 ^ 31)), (Z.ltb_spec (v / 2 ^ k) (2 ^ (31 - k)));
      try reflexivity; exfalso.
    - assert (v / 2 ^ k < 2 ^ (31 - k)); [|lia].
      apply Z.div_lt_upper_bound; lia.
    - assert (2 ^ (31 - k) <= v / 2 ^ k); [|lia].
      apply Z.div_le_lower_bound; lia. }
  rewrite Q1, Q2, (Htop v1 H1), (Htop v2 H2).
  assert (Hbig : 2 ^ (32 - k) = 2 * 2 ^ (31 - k)).
  { replace (32 - k) with (1 + (31 - k)) by lia. rewrite Z.pow_add_r by lia. reflexivity. }
  assert (Hq1 : 0 <= v1 / 2 ^ k) by (apply Z.div_pos; lia).
  assert (Hq2 : 0 <= v2 / 2 ^ k) by (apply Z.div_pos; lia).
  assert (Hu1 : v1 / 2 ^ k < 2 ^ (32 - k)).
  { apply Z.div_lt_upper_bound; [lia|]. rewrite <- Z.pow_add_r by lia.
    replace (k + (32 - k)) with 32 by lia. lia. }
  assert (Hu2 : v2 / 2 ^ k < 2 ^ (32 - k)).
  { apply Z.div_lt_upper_bound; [lia|]. rewrite <- Z.pow_add_r by lia.
    replace (k + (32 - k)) with 32 by lia. lia. }
  destruct (Z.ltb_spec (v1 / 2 ^ k) (2 ^ (31 - k))),
    (Z.ltb_spec (v2 / 2 ^ k) (2 ^ (31 - k)));
    destruct (Z.eqb_spec (v1 / 2 ^ k) (v2 / 2 ^ k)) as [E|E];
    first [ apply Z.eqb_eq; nia | apply Z.eqb_neq; nia ].
Qed.

Lemma isIPInRange_cidr_test (octets rangeOctets : list Z) (p : Z) (range : string) :
  valid_octets octets -> valid_octets rangeOctets -> 1 <= p <= 32 ->
  cidr_parts range = (Some rangeOctets, Some p) ->
  isIPInRange (ip_to_int octets) range
  = (ip_value octets / 2 ^ (32 - p) =? ip_value rangeOctets / 2 ^ (32 - p)).
Proof.
  intros Hip Hrange Hp Hparts. pose proof (f_equal fst Hparts) as Hbase. pose proof (f_equal snd Hparts) as Hprefix.
  unfold cidr_parts in Hbase, Hprefix. cbn [fst snd] in Hbase, Hprefix.
  unfold isIPInRange. cbv zeta. rewrite Hprefix, Hbase.
  destruct (Z.ltb_spec p 0); [lia|]. destruct (Z.ltb_spec 32 p); [lia|].
  cbn [orb]. rewrite subnet_mask by lia.
  rewrite !ip_to_int_value by assumption.
  apply masked_equal; [lia | now apply ip_value_range | now apply ip_value_range].
Qed.

(** X9. For a well-formed range [r/p] with [1 <= p <= 32], [isIPInRange]
    is CIDR membership: it is true exactly when the address and the base of
    the range agree on their leading [p] bits, even though addresses from
    128.0.0.0 on are negative as 32-bit integers. *)
Theorem isIPInRange_is_CIDR (octets rangeOctets : list Z) (p : Z) (range : string) :
  valid_octets octets -> valid_octets rangeOctets -> 1 <= p <= 32 ->
  cidr_parts range = (Some rangeOctets, Some p) ->
  (isIPInRange (ip_to_int octets) range = true
   <-> ip_value octets / 2 ^ (32 - p) = ip_value rangeOctets / 2 ^ (32 - p)).
Proof.
  intros Hip Hrange Hp Hparts.
  rewrite (isIPInRange_cidr_test octets rangeOctets p range) by assumption.
  apply Z.eqb_eq.
Qed.

Lemma isIPInRange_is_CIDR_witness :
  isIPInRange (ip_to_int [172; 31; 255; 9]) "172.16.0.0/12" = true
  /\ isIPInRange (ip_to_int [172; 32; 0; 1]) "172.16.0.0/12" <> true.
Proof.
  assert (Hv : forall o, In o [[172; 31; 255; 9]; [172; 32; 0; 1]; [172; 16; 0; 0]] ->
                         valid_octets o).
  { intros o [<-|[<-|[<-|[]]]]; (split; [reflexivity | repeat constructor; lia]). }
  split.
  - apply (isIPInRange_is_CIDR [172; 31; 255; 9] [172; 16; 0; 0] 12 "172.16.0.0/12");
      [apply Hv; simpl; tauto | apply Hv; simpl; tauto | lia | reflexivity | reflexivity].
  - intros E.
    apply (isIPInRange_is_CIDR [172; 32; 0; 1] [172; 16; 0; 0] 12 "172.16.0.0/12") in E;
      [discriminate E | apply Hv; simpl; tauto | apply Hv; simpl; tauto | lia | reflexivity].
Defined.

Lemma ip_value_injective (o1 o2 : list Z) :
  valid_octets o1 -> valid_octets o2 -> ip_value o1 = ip_value o2 -> o1 = o2.
Proof.
  intros [L1 A1] [L2 A2].
  destruct o1 as [|a1 [|b1 [|c1 [|d1 [|]]]]]; try discriminate.
  destruct o2 as [|a2 [|b2 [|c2 [|d2 [|]]]]]; try discriminate.
  inversion A1 as [|? ? Ha1 A11]; inversion A11 as [|? ? Hb1 A12];
    inversion A12 as [|? ? Hc1 A13]; inversion A13 as [|? ? Hd1 _]; subst.
  inversion A2 as [|? ? Ha2 A21]; inversion A21 as [|? ? Hb2 A22];
    inversion A22 as [|? ? Hc2 A23]; inversion A23 as [|? ? Hd2 _]; subst.
  cbn [ip_value]. change (2 ^ 24) with 16777216.
  change (2 ^ 16) with 65536. change (2 ^ 8) with 256.
  intros E. assert (a1 = a2 /\ b1 = b2 /\ c1 = c2 /\ d1 = d2) as (-> & -> & -> & ->) by lia.
  reflexivity.
Qed.

(** X10. A prefix length of 0 does not match every address: the shift by
    32 wraps to a shift by 0, the mask keeps all 32 bits, and the test is
    true only for the base address of the range itself. *)
Theorem isIPInRange_prefix_zero (octets rangeOctets : list Z) (range : string) :
  valid_octets octets -> valid_octets rangeOctets ->
  cidr_parts range = (Some rangeOctets, Some 0) ->
  (isIPInRange (ip_to_int octets) range = true <-> octets = rangeOctets).
Proof.
  intros Hip Hrange Hparts. pose proof (f_equal fst Hparts) as Hbase. pose proof (f_equal snd Hparts) as Hprefix.
  unfold cidr_parts in Hbase, Hprefix. cbn [fst snd] in Hbase, Hprefix.
  unfold isIPInRange. cbv zeta. rewrite Hprefix, Hbase.
  cbn [Z.ltb Z.compare orb].
  change (JS.not (JS.shl 1 (32 - 0) - 1)) with (- 2 ^ 0).
  rewrite !ip_to_int_value by assumption.
  rewrite masked_equal; [| lia | now apply ip_value_range | now apply ip_value_range].
  change (2 ^ 0) with 1. rewrite !Z.div_1_r, Z.eqb_eq.
  split; [now apply ip_value_injective | now intros ->].
Qed.

Lemma isIPInRange_prefix_zero_witness :
  isIPInRange (ip_to_int [8; 8; 8; 8]) "0.0.0.0/0" <> true
  /\ isIPInRange (ip_to_int [0; 0; 0; 0]) "0.0.0.0/0" = true.
Proof.
  assert (Hv : forall o, In o [[8; 8; 8; 8]; [0; 0; 0; 0]] -> valid_octets o).
  { intros o [<-|[<-|[]]]; (split; [reflexivity | repeat constructor; lia]). }
  split.
  - intros E.
    apply (isIPInRange_prefix_zero [8; 8; 8; 8] [0; 0; 0; 0] "0.0.0.0/0") in E;
      [discriminate E | apply Hv; simpl; tauto | apply Hv; simpl; tauto | reflexivity].
  - apply (isIPInRange_prefix_zero [0; 0; 0; 0] [0; 0; 0; 0] "0.0.0.0/0");
      [apply Hv; simpl; tauto | apply Hv; simpl; tauto | reflexivity | reflexivity].
Defined.

Lemma digits_value_nonneg (s : string) :
  forall acc, 0 <= acc -> JS.all_digits s = true -> 0 <= JS.digits_value acc s.
Proof.
  induction s as [|ch s IH]; intros acc Hacc Hd; cbn in *; [assumption|].
  apply andb_prop in Hd as [Hc Hs]. apply IH; [|assumption].
  unfold JS.is_digit in Hc. cbv zeta in Hc. apply andb_prop in Hc as [Hlo _].
  apply Nat.leb_le in Hlo. unfold JS.digit_value. lia.
Qed.

Lemma octet_group_nonneg (s : string) :
  octet_group s = true -> 0 <= JS.digits_value 0 s.
Proof.
  unfold octet_group. intros H. apply andb_prop in H as [H _].
  apply andb_prop in H as [H _]. apply digits_value_nonneg; [lia | exact H].
Qed.

Lemma match_ipv4_nonneg (s : string) (octets : list Z) :
  match_ipv4 s = Some octets ->
  length octets = 4%nat /\ Forall (fun o => 0 <= o) octets.
Proof.
  unfold match_ipv4.
  destruct (JS.split "." s) as [|a [|b [|c [|d [|]]]]]; try discriminate.
  destruct (octet_group a && octet_group b && octet_group c && octet_group d) eqn:E;
    [|discriminate].
  intros [= <-]. split; [reflexivity|].
  apply andb_prop in E as [E Hd]. apply andb_prop in E as [E Hc].
  apply andb_prop in E as [Ha Hb].
  cbn [map]. repeat constructor; now apply octet_group_nonneg.
Qed.

(** One entry of the range table, with its numbers worked out. *)
Lemma range_test (octets rangeOctets : list Z) (p k v : Z) (range : string) :
  valid_octets octets ->
  cidr_parts range = (Some rangeOctets, Some p) ->
  (1 <=? p) && (p <=? 32) = true ->
  forallb (fun o => (0 <=? o) && (o <=? 255)) rangeOctets
  && Nat.eqb (length rangeOctets) 4 = true ->
  k = 2 ^ (32 - p) -> v = ip_value rangeOctets / k ->
  isIPInRange (ip_to_int octets) range = (ip_value octets / k =? v).
Proof.
  intros Hip Hparts Hp Hr -> ->.
  apply andb_prop in Hp as [Hp1 Hp2]. apply andb_prop in Hr as [Hr Hlen].
  apply isIPInRange_cidr_test; [assumption | | lia | assumption].
  split; [now apply Nat.eqb_eq|].
  apply List.Forall_forall. intros o Ho.
  rewrite forallb_forall in Hr. specialize (Hr o Ho). lia.
Qed.

(** X11. For a hostname that is a dotted quad, [isForbiddenIP] is true
    exactly when an octet exceeds 255 or the address lies in one of the
    listed reserved ranges; the 32-bit arithmetic neither misses an address
    of those ranges nor flags one outside them. *)
Theorem isForbiddenIP_reserved (ip : string) (a b c d : Z) :
  match_ipv4 ip = Some [a; b; c; d] ->
  (isForbiddenIP ip = true
   <-> 255 < a \/ 255 < b \/ 255 < c \/ 255 < d \/ reserved_address a b c d).
Proof.
  intros Hmatch. pose proof (match_ipv4_nonneg ip _ Hmatch) as [_ Hnn].
  inversion Hnn as [|? ? Ha Hnn1]; inversion Hnn1 as [|? ? Hb Hnn2];
    inversion Hnn2 as [|? ? Hc Hnn3]; inversion Hnn3 as [|? ? Hd _]; subst.
  unfold isForbiddenIP. rewrite Hmatch. cbn [existsb].
  destruct (Z.ltb_spec a 0); [lia|]. destruct (Z.ltb_spec b 0); [lia|].
  destruct (Z.ltb_spec c 0); [lia|]. destruct (Z.ltb_spec d 0); [lia|].
  cbn [orb].
  destruct (Z.ltb_spec 255 a); [cbn [orb]; tauto|].
  destruct (Z.ltb_spec 255 b); [cbn [orb]; tauto|].
  destruct (Z.ltb_spec 255 c); [cbn [orb]; tauto|].
  destruct (Z.ltb_spec 255 d); [cbn [orb]; tauto|].
  cbn [orb].
  assert (Hvalid : valid_octets [a; b; c; d]).
  { split; [reflexivity | repeat constructor; lia]. }
  unfold FORBIDDEN_IP_RANGES. cbn [existsb].
  rewrite (range_test _ [127; 0; 0; 0] 8 16777216 127 "127.0.0.0/8" Hvalid)
    by reflexivity.
  rewrite (range_test _ [10; 0; 0; 0] 8 16777216 10 "10.0.0.0/8" Hvalid)
    by reflexivity.
  rewrite (range_test _ [172; 16; 0; 0] 12 1048576 2753 "172.16.0.0/12" Hvalid)
    by reflexivity.
  rewrite (range_test _ [192; 168; 0; 0] 16 65536 49320 "192.168.0.0/16" Hvalid)
    by reflexivity.
  rewrite (range_test _ [169; 254; 0; 0] 16 65536 43518 "169.254.0.0/16" Hvalid)
    by reflexivity.
  rewrite (range_test _ [0; 0; 0; 0] 8 16777216 0 "0.0.0.0/8" Hvalid)
    by reflexivity.
  rewrite (range_test _ [100; 64; 0; 0] 10 4194304 401 "100.64.0.0/10" Hvalid)
    by reflexivity.
  rewrite (range_test _ [192; 0; 0; 0] 24 256 12582912 "192.0.0.0/24" Hvalid)
    by reflexivity.
  rewrite (range_test _ [192; 0; 2; 0] 24 256 12582914 "192.0.2.0/24" Hvalid)
    by reflexivity.
  rewrite (range_test _ [198; 51; 100; 0] 24 256 12989284 "198.51.100.0/24" Hvalid)
    by reflexivity.
  rewrite (range_test _ [203; 0; 113; 0] 24 256 13303921 "203.0.113.0/24" Hvalid)
    by reflexivity.
  rewrite (range_test _ [224; 0; 0; 0] 4 268435456 14 "224.0.0.0/4" Hvalid)
    by reflexivity.
  rewrite (range_test _ [240; 0; 0; 0] 4 268435456 15 "240.0.0.0/4" Hvalid)
    by reflexivity.
  rewrite (range_test _ [255; 255; 255; 255] 32 1 4294967295 "255.255.255.255/32" Hvalid)
    by reflexivity.
  cbn [ip_value]. change (2 ^ 24) with 16777216.
  change (2 ^ 16) with 65536. change (2 ^ 8) with 256.
  set (V := a * 16777216 + b * 65536 + c * 256 + d).
  assert (Q8 : V / 16777216 = a) by (subst V; Z.div_mod_to_equations; lia).
  assert (Q16 : V / 65536 = a * 256 + b) by (subst V; Z.div_mod_to_equations; lia).
  assert (Q24 : V / 256 = a * 65536 + b * 256 + c)
    by (subst V; Z.div_mod_to_equations; lia).
  assert (Q12 : V / 1048576 = a * 16 + b / 16)
    by (subst V; Z.div_mod_to_equations; lia).
  assert (Q10 : V / 4194304 = a * 4 + b / 64)
    by (subst V; Z.div_mod_to_equations; lia).
  assert (Q4 : V / 268435456 = a / 16) by (subst V; Z.div_mod_to_equations; lia).
  rewrite Q8, Q16, Q24, Q12, Q10, Q4, Z.div_1_r.
  rewrite orb_false_r, !orb_true_iff, !Z.eqb_eq.
  subst V. clear Q8 Q16 Q24 Q12 Q10 Q4.
  assert (Ba : 0 <= a <= 255) by lia. assert (Bb : 0 <= b <= 255) by lia.
  assert (Bc : 0 <= c <= 255) by lia. assert (Bd : 0 <= d <= 255) by lia.
  assert (E32 : a * 16777216 + b * 65536 + c * 256 + d = 4294967295 -> 224 <= a)
    by (clear - Ba Bb Bc Bd; lia).
  assert (E12 : a * 16 + b / 16 = 2753 <-> a = 172 /\ 16 <= b <= 31)
    by (clear - Ba Bb; Z.div_mod_to_equations; lia).
  assert (E10 : a * 4 + b / 64 = 401 <-> a = 100 /\ 64 <= b <= 127)
    by (clear - Ba Bb; Z.div_mod_to_equations; lia).
  assert (E4 : a / 16 = 14 \/ a / 16 = 15 <-> 224 <= a)
    by (clear - Ba; Z.div_mod_to_equations; lia).
  assert (F : forall a' b', 0 <= b' <= 255 ->
                a * 256 + b = a' * 256 + b' <-> a = a' /\ b = b')
    by (clear - Bb; intros; lia).
  assert (G : forall a' b' c', 0 <= b' <= 255 -> 0 <= c' <= 255 ->
                a * 65536 + b * 256 + c = a' * 65536 + b' * 256 + c'
                <-> a = a' /\ b = b' /\ c = c')
    by (clear - Bb Bc; intros; lia).
  rewrite (F 192 168 ltac:(lia) : _ = 49320 <-> _).
  rewrite (F 169 254 ltac:(lia) : _ = 43518 <-> _).
  rewrite (G 192 0 0 ltac:(lia) ltac:(lia) : _ = 12582912 <-> _).
  rewrite (G 192 0 2 ltac:(lia) ltac:(lia) : _ = 12582914 <-> _).
  rewrite (G 198 51 100 ltac:(lia) ltac:(lia) : _ = 12989284 <-> _).
  rewrite (G 203 0 113 ltac:(lia) ltac:(lia) : _ = 13303921 <-> _).
  rewrite E12, E10. clear F G.
  unfold reserved_address.
  assert (N : ~ (255 < a \/ 255 < b \/ 255 < c \/ 255 < d)) by (clear - Ba Bb Bc Bd; lia).
  tauto.
Qed.

Lemma isForbiddenIP_reserved_witness :
  isForbiddenIP "100.127.255.255" = true /\ isForbiddenIP "100.128.0.0" <> true.
Proof.
  split.
  - apply (isForbiddenIP_reserved "100.127.255.255" 100 127 255 255); [reflexivity|].
    unfold reserved_address. lia.
  - intros E.
    apply (isForbiddenIP_reserved "100.128.0.0" 100 128 0 0) in E; [|reflexivity].
    unfold reserved_address in E. lia.
Defined.

(** ** Error classification and retries *)

Ltac close_taxonomy :=
  cbn; repeat split; try discriminate; try tauto;
  try (intros _ _ txt [= Hstatus _]; first [tauto | lia]).

(** X12. Whatever is thrown at it, [handleApiError] returns an error of the
    fixed taxonomy with a hint, and only ever one of six codes; a DNS or
    timeout transport code decides the class before any HTTP status is
    looked at, an HTTP status before the message text, and status 429 without
    such a transport code is RATE_LIMIT_EXCEEDED. *)
Theorem handleApiError_taxonomy (error : JsError) :
  isWebSearchError (handleApiError error) = true
  /\ err_hint (handleApiError error) <> None
  /\ err_response (handleApiError error) = None
  /\ In (err_code (handleApiError error))
        (map (fun c => Some (code_string c))
             [NETWORK_ERROR; TIMEOUT_ERROR; INVALID_PARAMETERS; API_ERROR;
              RATE_LIMIT_EXCEEDED; QUOTA_EXCEEDED])
  /\ (code_is error "ENOTFOUND" || code_is error "EAI_AGAIN" = true ->
      err_code (handleApiError error) = Some (code_string NETWORK_ERROR))
  /\ (code_is error "ENOTFOUND" || code_is error "EAI_AGAIN" = false ->
      code_is error "ETIMEDOUT" || code_is error "ESOCKETTIMEDOUT" = true ->
      err_code (handleApiError error) = Some (code_string TIMEOUT_ERROR))
  /\ (code_is error "ENOTFOUND" || code_is error "EAI_AGAIN" = false ->
      code_is error "ETIMEDOUT" || code_is error "ESOCKETTIMEDOUT" = false ->
      forall statusText, err_response error = Some (429, statusText) ->
      err_code (handleApiError error) = Some (code_string RATE_LIMIT_EXCEEDED)).
Proof.
  unfold handleApiError.
  destruct (code_is error "ENOTFOUND" || code_is error "EAI_AGAIN") eqn:Hdns.
  { close_taxonomy. }
  destruct (code_is error "ETIMEDOUT" || code_is error "ESOCKETTIMEDOUT") eqn:Htime.
  { close_taxonomy. }
  destruct (err_response error) as [[status statusText]|].
  - destruct (Z.eqb_spec status 400); [close_taxonomy|].
    destruct (Z.eqb_spec status 401); [close_taxonomy|].
    destruct (Z.eqb_spec status 403); [close_taxonomy|].
    cbn [orb].
    destruct (Z.eqb_spec status 429); [close_taxonomy|].
    destruct (Z.eqb_spec status 500); [close_taxonomy|].
    destruct (Z.eqb_spec status 502); [close_taxonomy|].
    destruct (Z.eqb_spec status 503); [close_taxonomy|].
    destruct (Z.eqb_spec status 504); close_taxonomy.
  - destruct (str_includes "quota" (err_message error)); close_taxonomy.
Qed.

Lemma handleApiError_taxonomy_witness :
  err_code (handleApiError {| err_code := Some "ERR_BAD_REQUEST";
                              err_response := Some (429, "Too Many Requests");
                              err_message := "Request failed with status code 429";
                              err_hint := None |})
  = Some "RATE_LIMIT_EXCEEDED".
Proof.
  destruct (handleApiError_taxonomy
              {| err_code := Some "ERR_BAD_REQUEST";
                 err_response := Some (429, "Too Many Requests");
                 err_message := "Request failed with status code 429";
                 err_hint := None |}) as (_ & _ & _ & _ & _ & _ & H429).
  apply (H429 eq_refl eq_refl "Too Many Requests"). reflexivity.
Defined.

Lemma str_includes_needs_first (c : ascii) (needle haystack : string) :
  has_char c haystack = false -> str_includes (String c needle) haystack = false.
Proof.
  induction haystack as [|x rest IH]; cbn; [reflexivity|].
  intros Hc. apply orb_false_elim in Hc as [Hx Hrest].
  rewrite (IH Hrest), orb_false_r.
  destruct (ascii_dec c x) as [->|Hne]; [|reflexivity].
  rewrite Ascii.eqb_refl in Hx. discriminate.
Qed.

Lemma has_char_append (c : ascii) (s1 s2 : string) :
  has_char c (s1 +:+ s2) = has_char c s1 || has_char c s2.
Proof.
  induction s1 as [|x s1 IH]; [reflexivity|].
  change (String x s1 +:+ s2) with (String x (s1 +:+ s2)).
  cbn [has_char]. now rewrite IH, orb_assoc.
Qed.

Lemma pos_digits_no_q (fuel : nat) :
  forall n acc, has_char "q" acc = false -> has_char "q" (JS.pos_digits fuel n acc) = false.
Proof.
  induction fuel as [|fuel IH]; intros n acc Hacc; cbn [JS.pos_digits]; [assumption|].
  assert (Hd : has_char "q" (String (ascii_of_nat (Z.to_nat (48 + n mod 10))) acc) = false).
  { cbn [has_char]. rewrite Hacc, orb_false_r.
    pose proof (Z.mod_pos_bound n 10 ltac:(lia)) as Hm.
    assert (Hcases : exists k : nat, (k < 10)%nat /\ Z.to_nat (48 + n mod 10) = (48 + k)%nat).
    { exists (Z.to_nat (n mod 10)). lia. }
    destruct Hcases as (k & Hk & ->).
    do 10 (destruct k as [|k]; [reflexivity|]). lia. }
  destruct (n <? 10); [exact Hd | now apply IH].
Qed.

Lemma timeout_error_no_quota (timeoutMs : option Z) :
  str_includes "quota" (err_message (timeout_error timeoutMs)) = false.
Proof.
  apply str_includes_needs_first. unfold timeout_error. cbn [err_message createWebSearchError].
  rewrite !has_char_append. cbn [has_char Ascii.eqb Bool.eqb orb].
  rewrite orb_false_r.
  destruct timeoutMs as [t|]; [|reflexivity].
  unfold JS.number_to_string.
  destruct (t <? 0); [cbn [has_char Ascii.eqb Bool.eqb orb]|];
    now apply pos_digits_no_q.
Qed.

Lemma handleApiError_timeout_error (timeoutMs : option Z) :
  handleApiError (timeout_error timeoutMs)
  = createWebSearchError API_ERROR (err_message (timeout_error timeoutMs))
      (Some "An unexpected error occurred. Please try again").
Proof.
  unfold handleApiError.
  change (code_is (timeout_error timeoutMs) "ENOTFOUND") with false.
  change (code_is (timeout_error timeoutMs) "EAI_AGAIN") with false.
  change (code_is (timeout_error timeoutMs) "ETIMEDOUT") with false.
  change (code_is (timeout_error timeoutMs) "ESOCKETTIMEDOUT") with false.
  cbn [orb]. change (err_response (timeout_error timeoutMs)) with (@None (Z * string)).
  rewrite timeout_error_no_quota.
  destruct (String.eqb_spec (err_message (timeout_error timeoutMs)) "") as [E|_];
    [|reflexivity].
  discriminate E.
Qed.

Section ThreeAttempts.
Context {A : Type} (api : nat -> Outcome A) (req : NetRequest) (post : M (Outcome A)).
Hypothesis post_spec :
  forall w, post w = (Ok (api (length (w_net w))), sent w [req]).
Variable timeoutMs : option Z.

Lemma sent_sent (w : World) (a b : list NetRequest) :
  sent (sent w a) b = sent w (a ++ b).
Proof. unfold sent. cbn. now rewrite <- app_assoc. Qed.

Lemma withTimeout_post (w : World) :
  withTimeout post timeoutMs w
  = (match api (length (w_net w)) with
     | Resolved r => Ok r
     | Rejected e => Throw e
     | TimedOut => Throw (timeout_error timeoutMs)
     end, sent w [req]).
Proof.
  unfold withTimeout, bind. rewrite post_spec.
  destruct (api (length (w_net w))); reflexivity.
Qed.

(** [withRetry] with its default of two retries around [withTimeout]: the
    request is sent until an attempt resolves, three times at most; the
    first resolved attempt gives the result, and when all three fail the
    error of the third is thrown. *)
Lemma withRetry_three_attempts (w : World) :
  let n0 := length (w_net w) in
  let run := withRetry (withTimeout post timeoutMs) 2 w in
  exists n : nat,
    (1 <= n <= 3)%nat
    /\ snd run = sent w (repeat req n)
    /\ (forall i, (i < n - 1)%nat -> attempt_error timeoutMs (api (n0 + i)) <> None)
    /\ match attempt_error timeoutMs (api (n0 + n - 1)) with
       | None => exists r, api (n0 + n - 1) = Resolved r /\ fst run = Ok r
       | Some e => n = 3%nat /\ fst run = Throw e
       end.
Proof.
  intros n0 run. subst run. unfold withRetry. cbn [retry_loop].
  rewrite withTimeout_post. fold n0.
  destruct (api n0) as [r0|e0|] eqn:H0.
  1: { exists 1%nat. replace (n0 + 1 - 1)%nat with n0 by lia. rewrite H0. cbn.
       repeat split; try lia. eauto. }
  all: rewrite withTimeout_post, sent_sent;
    replace (length (w_net (sent w [req]))) with (n0 + 1)%nat
      by (unfold sent; cbn; rewrite length_app; cbn; lia);
    destruct (api (n0 + 1)%nat) as [r1|e1|] eqn:H1.
  1, 4: exists 2%nat; replace (n0 + 2 - 1)%nat with (n0 + 1)%nat by lia; rewrite H1; cbn;
    (split; [lia|]); (split; [reflexivity|]); (split; [|eauto]);
    intros i Hi; replace (n0 + i)%nat with n0 by lia; rewrite H0; discriminate.
  all: rewrite withTimeout_post, sent_sent;
    replace (length (w_net (sent w ([req] ++ [req])))) with (n0 + 2)%nat
      by (unfold sent; cbn; rewrite length_app; cbn; lia);
    exists 3%nat; replace (n0 + 3 - 1)%nat with (n0 + 2)%nat by lia;
    (split; [lia|]); (split; [destruct (api (n0 + 2)%nat); reflexivity|]);
    (split; [intros i Hi; assert (i = 0 \/ i = 1)%nat as [-> | ->] by lia;
             [replace (n0 + 0)%nat with n0 by lia; rewrite H0
             | rewrite H1]; discriminate|]);
    destruct (api (n0 + 2)%nat) as [r2|e2|]; cbn; eauto.
Qed.

End ThreeAttempts.

Section RequestProps.
Context `{URLApi} (env : Env).

Lemma makePerplexityRequest_configured (apiKey : string) (payload : SearchPayload)
    (w : World) (cfg : EnvConfig) :
  getEnv env = Ok cfg ->
  makePerplexityRequest env apiKey payload w
  = (match fst (withRetry (withTimeout (axios_post_search env apiKey payload)
                             (configured_timeout cfg)) 2 w) with
     | Ok r => Ok r
     | Throw e => Throw (handleApiError e)
     end,
     snd (withRetry (withTimeout (axios_post_search env apiKey payload)
                       (configured_timeout cfg)) 2 w)).
Proof.
  intros Hcfg. unfold makePerplexityRequest, rethrow, request_timeout, bind, lift.
  rewrite Hcfg. cbn [ret]. fold (configured_timeout cfg).
  destruct (withRetry _ 2 w) as [[r|e] w']; reflexivity.
Qed.

(** X14. [makePerplexityRequest] sends the same request until an attempt
    resolves, three times at most, and touches nothing else; the first
    resolved attempt is its result, and when all three attempts fail it
    throws the classification by [handleApiError] of the third failure. *)
Theorem makePerplexityRequest_attempts (apiKey : string) (payload : SearchPayload)
    (w : World) (cfg : EnvConfig) :
  getEnv env = Ok cfg ->
  let n0 := length (w_net w) in
  let timeoutMs := configured_timeout cfg in
  let run := makePerplexityRequest env apiKey payload w in
  exists n : nat,
    (1 <= n <= 3)%nat
    /\ snd run = sent w (repeat (PostSearch apiKey payload) n)
    /\ (forall i, (i < n - 1)%nat ->
          attempt_error timeoutMs (search_api env (n0 + i)) <> None)
    /\ match attempt_error timeoutMs (search_api env (n0 + n - 1)) with
       | None => exists r, search_api env (n0 + n - 1) = Resolved r /\ fst run = Ok r
       | Some e => n = 3%nat /\ fst run = Throw (handleApiError e)
       end.
Proof.
  intros Hcfg n0 timeoutMs run.
  destruct (withRetry_three_attempts (search_api env) (PostSearch apiKey payload)
              (axios_post_search env apiKey payload) (fun _ => eq_refl) timeoutMs w)
    as (n & Hn & Hsnd & Hfail & Hlast).
  exists n. subst run. rewrite (makePerplexityRequest_configured apiKey payload w cfg Hcfg).
  fold timeoutMs.
  destruct (withRetry (withTimeout (axios_post_search env apiKey payload) timeoutMs) 2 w)
    as [[r|e] w'] eqn:Hrun; cbn [fst snd] in *.
  - repeat split; try assumption; try lia. fold n0 in Hlast.
    destruct (attempt_error timeoutMs (search_api env (n0 + n - 1))).
    + destruct Hlast as [_ Hbad]. discriminate Hbad.
    + exact Hlast.
  - repeat split; try assumption; try lia. fold n0 in Hlast.
    destruct (attempt_error timeoutMs (search_api env (n0 + n - 1))).
    + destruct Hlast as [-> [= ->]]. split; reflexivity.
    + destruct Hlast as (r & _ & Hbad). discriminate Hbad.
Qed.

End RequestProps.

Section TimeoutProps.
Context `{URLApi} (env : Env).

(** X13. When the timer of [withTimeout] fires on all three attempts,
    [makePerplexityRequest] has sent the request three times and throws an
    API_ERROR whose message is "Operation timed out after ...ms": the
    TIMEOUT_ERROR class of the timer's error is lost in [handleApiError]. *)
Theorem makePerplexityRequest_timeout (apiKey : string) (payload : SearchPayload)
    (w : World) (cfg : EnvConfig) :
  getEnv env = Ok cfg ->
  (forall i, (i < 3)%nat -> search_api env (length (w_net w) + i) = TimedOut) ->
  makePerplexityRequest env apiKey payload w
  = (Throw (createWebSearchError API_ERROR
              (err_message (timeout_error (configured_timeout cfg)))
              (Some "An unexpected error occurred. Please try again")),
     sent w (repeat (PostSearch apiKey payload) 3))
  /\ err_code (timeout_error (configured_timeout cfg)) = Some (code_string TIMEOUT_ERROR).
Proof.
  intros Hcfg Hslow. split; [|reflexivity].
  rewrite (makePerplexityRequest_configured env apiKey payload w cfg Hcfg).
  destruct (withRetry_three_attempts (search_api env) (PostSearch apiKey payload)
              (axios_post_search env apiKey payload) (fun _ => eq_refl)
              (configured_timeout cfg) w)
    as (n & Hn & Hsnd & _ & Hlast).
  cbv zeta in Hlast.
  replace (length (w_net w) + n - 1)%nat with (length (w_net w) + (n - 1))%nat in Hlast by lia.
  rewrite (Hslow (n - 1)%nat) in Hlast by lia.
  cbn [attempt_error] in Hlast. destruct Hlast as [-> Hthrow].
  rewrite Hthrow, Hsnd, handleApiError_timeout_error. reflexivity.
Qed.

End TimeoutProps.

(** ** client.ts: what the normalisation keeps *)

Section NormalizeProps.
Context `{URLApi}.

Lemma normalizeResults_well_formed (rawResults : list RawResult) :
  Forall well_formed_result (normalizeResults rawResults).
Proof.
  unfold normalizeResults. apply List.Forall_forall. intros r Hr.
  apply filter_In in Hr as [_ Hr].
  apply andb_prop in Hr as [Hr Hvalid]. apply andb_prop in Hr as [Htitle Hurl].
  unfold nonempty in *. apply negb_true_iff in Htitle, Hurl.
  apply String.eqb_neq in Htitle, Hurl. repeat split; assumption.
Qed.

Lemma Forall_of_sublist {T : Type} (P : T -> Prop) (l k : list T) :
  sublist l k -> Forall P k -> Forall P l.
Proof.
  induction 1 as [|x l k _ IH|x l k _ IH]; intros Hall.
  - constructor.
  - inversion Hall; subst. constructor; auto.
  - inversion Hall; subst. auto.
Qed.

(** X16. [normalizeResults] keeps exactly the normalised results that have
    a title, a URL, and a URL that passes [isValidUrl]: it parses, its
    scheme is https, and its host is neither a forbidden name nor a
    forbidden address.  Deduplication afterwards only removes results, so
    the same holds of the deduplicated list. *)
Theorem normalizeResults_keeps_safe (rawResults : list RawResult) :
  (forall r, In r (normalizeResults rawResults)
             <-> In r (map normalizeResult rawResults) /\ well_formed_result r)
  /\ (forall r, In r (normalizeResults rawResults) ->
        exists u, URL_parse (url r) = Some u
                  /\ protocol u = "https:"
                  /\ includes FORBIDDEN_HOSTNAMES (hostname u) = false
                  /\ isForbiddenIP (hostname u) = false)
  /\ (forall strategy,
        Forall well_formed_result (deduplicateResults (normalizeResults rawResults) strategy)).
Proof.
  assert (Hiff : forall r, In r (normalizeResults rawResults)
                           <-> In r (map normalizeResult rawResults) /\ well_formed_result r).
  { intros r. unfold normalizeResults, well_formed_result, nonempty.
    rewrite filter_In, !andb_true_iff, !negb_true_iff, !String.eqb_neq. tauto. }
  split; [exact Hiff|]. split.
  - intros r Hr. apply Hiff in Hr as [_ (_ & _ & Hvalid)].
    unfold isValidUrl in Hvalid.
    destruct (URL_parse (url r)) as [u|]; [|discriminate].
    exists u. split; [reflexivity|].
    destruct (includes ALLOWED_PROTOCOLS (protocol u)) eqn:Hproto; [|discriminate].
    destruct (includes FORBIDDEN_HOSTNAMES (hostname u)); [discriminate|].
    destruct (isForbiddenIP (hostname u)); [discriminate|].
    split; [|split; reflexivity].
    now apply includes_allowed_protocol.
  - intros strategy. eapply Forall_of_sublist; [|apply normalizeResults_well_formed].
    apply dedupe_filter_sublist.
Qed.

End NormalizeProps.

Module NormalizeRuns.

#[local] Existing Instance RefURL.api.

Lemma normalizeResults_keeps_safe_witness :
  url <$> normalizeResults
            [ {| raw_title := Some "Ownership"; raw_url := Some "https://user:pw@a.example/x#top";
                 raw_snippet := None; raw_published_at := None; raw_source := None;
                 raw_score := None |};
              {| raw_title := Some "Plain"; raw_url := Some "http://a.example/y";
                 raw_snippet := None; raw_published_at := None; raw_source := None;
                 raw_score := None |};
              {| raw_title := Some "Metadata"; raw_url := Some "https://169.254.169.254/latest";
                 raw_snippet := None; raw_published_at := None; raw_source := None;
                 raw_score := None |};
              {| raw_title := None; raw_url := Some "https://b.example/z";
                 raw_snippet := None; raw_published_at := None; raw_source := None;
                 raw_score := None |} ]
  = ["https://a.example/x"]
  /\ Forall well_formed_result
       (deduplicateResults
          (normalizeResults
             [ {| raw_title := Some "Plain"; raw_url := Some "http://a.example/y";
                  raw_snippet := None; raw_published_at := None;
                  raw_source := None; raw_score := None |} ]) domain).
Proof.
  split; [vm_compute; reflexivity|].
  apply normalizeResults_keeps_safe.
Defined.

End NormalizeRuns.

Module OutageRuns.
Import Outages.

#[local] Existing Instance RefURL.api.

Lemma makePerplexityRequest_attempts_witness :
  fst (makePerplexityRequest env_flaky "pplx-key" (build_payload (Scenario.just "rust"))
         empty_world)
  = Ok {| raw_results := Some [] |}
  /\ length (w_net (snd (makePerplexityRequest env_flaky "pplx-key"
                           (build_payload (Scenario.just "rust")) empty_world))) = 3%nat.
Proof.
  destruct (getEnv_returns env_flaky) as [cfg Hcfg]; [vm_compute; exact I|].
  destruct (makePerplexityRequest_attempts env_flaky "pplx-key"
              (build_payload (Scenario.just "rust")) empty_world cfg Hcfg)
    as (n & Hn & Hsnd & Hfail & Hlast).
  split; vm_compute; reflexivity.
Defined.

Lemma makePerplexityRequest_timeout_witness :
  fst (makePerplexityRequest env_slow "pplx-key" (build_payload (Scenario.just "rust"))
         empty_world)
  = Throw (createWebSearchError API_ERROR "Operation timed out after 10000ms"
             (Some "An unexpected error occurred. Please try again")).
Proof.
  destruct (getEnv_returns env_slow) as [cfg Hcfg]; [vm_compute; exact I|].
  destruct (makePerplexityRequest_timeout env_slow "pplx-key"
              (build_payload (Scenario.just "rust")) empty_world cfg Hcfg
              (fun _ _ => eq_refl)) as [Hrun _].
  rewrite Hrun. cbn [fst]. do 2 f_equal.
  destruct (getEnv_no_credential env_slow cfg Hcfg) as [_ Htimeout].
  unfold configured_timeout. rewrite Htimeout. reflexivity.
Defined.

End OutageRuns.

(** ** The client without its credential

    The object that [getEnv] returns never has a PERPLEXITY_API_KEY, so the
    credential check of [searchWeb] and of [generateAnswerWithSonar] fails
    whenever it is reached. *)

Section NoCredentialProps.
Context `{URLApi} (env : Env).


(** X19. [generateAnswerWithSonar] never returns a response and never sends
    a request, with or without [sonar_model]: an error of the evidence
    search is passed on, and when the evidence comes from the cache the
    credential check that follows fails.  The call ends in the state in
    which its evidence search ends. *)
Theorem generateAnswer_never_returns (params : SearchParams) (w : World) :
  let run := generateAnswerWithSonar env params w in
  (exists e, fst run = Throw e
             /\ (e = Error "Rate limit exceeded. Please try again later."
                 \/ e = Error "PERPLEXITY_API_KEY is not configured"
                 \/ e = Error "GLM_API_KEY environment variable is required"
                 \/ In (Throw e) (dotenv env)))
  /\ snd run = snd (searchWeb env params w)
  /\ w_net (snd run) = w_net w
  /\ (forall e, fst (searchWeb env params w) = Throw e -> fst run = Throw e)
  /\ (forall evidence, fst (searchWeb env params w) = Ok evidence ->
        fst run = match getEnv env with
                  | Ok _ => Throw (Error "PERPLEXITY_API_KEY is not configured")
                  | Throw e => Throw e
                  end).
Proof.
  intros run. subst run. split; [apply generateAnswer_throws|].
  rewrite generateAnswer_eq. cbn [fst snd].
  destruct (searchWeb_state env params w) as (Hnet & _).
  split; [reflexivity|]. split; [exact Hnet|]. split.
  - intros e ->. reflexivity.
  - intros evidence ->. unfold missing_credential.
    destruct (getEnv env); reflexivity.
Qed.

End NoCredentialProps.

Module CredentialRuns.
Import Scenario.

#[local] Existing Instance RefURL.api.


Lemma generateAnswer_never_returns_witness :
  fst (generateAnswerWithSonar env_up (with_model "rust" sonar_pro) fresh)
  = Throw (Error "PERPLEXITY_API_KEY is not configured")
  /\ w_net (snd (generateAnswerWithSonar env_up (with_model "rust" sonar_pro) fresh)) = [].
Proof.
  destruct (generateAnswer_never_returns env_up (with_model "rust" sonar_pro) fresh)
    as (_ & _ & Hnet & Hpass & _).
  split; [|exact Hnet].
  apply Hpass. vm_compute. reflexivity.
Defined.

End CredentialRuns.

(** ** Cache keys and the request they stand for *)

Lemma join_extra_part (x : string) (parts : list string) :
  String.length (JS.join "|" (x :: "10" :: parts))
  = (String.length (JS.join "|" (x :: parts)) + 3)%nat.
Proof.
  assert (Happ : forall a b, String.length (a +:+ b)
                             = (String.length a + String.length b)%nat).
  { intros a b. induction a as [|c a IH]; [reflexivity|].
    change (String c a +:+ b) with (String c (a +:+ b)). cbn [String.length].
    now rewrite IH. }
  destruct parts as [|y rest].
  - cbn [JS.join]. rewrite !Happ. cbn [String.length]. lia.
  - change (JS.join "|" (x :: "10" :: y :: rest))
      with (x +:+ "|" +:+ "10" +:+ "|" +:+ JS.join "|" (y :: rest)).
    change (JS.join "|" (x :: y :: rest)) with (x +:+ "|" +:+ JS.join "|" (y :: rest)).
    rewrite !Happ. cbn [String.length]. lia.
Qed.

(** X17. [aggregate] is sent upstream but is not part of the cache key:
    two parameter sets that differ only in [aggregate] have the same key,
    whatever the other parameters, while their payloads differ. *)
Theorem createCacheKey_ignores_aggregate (params : SearchParams) (a : option bool) :
  createCacheKey (set_aggregate params a) = createCacheKey params
  /\ p_aggregate (build_payload (set_aggregate params a)) = a
  /\ (a <> aggregate params ->
      build_payload (set_aggregate params a) <> build_payload params).
Proof.
  split; [reflexivity|]. split; [reflexivity|].
  intros Hne Heq. apply Hne.
  change a with (p_aggregate (build_payload (set_aggregate params a))).
  now rewrite Heq.
Qed.

Lemma createCacheKey_ignores_aggregate_witness :
  createCacheKey (set_aggregate (Scenario.just "rust") (Some true))
  = createCacheKey (Scenario.just "rust")
  /\ build_payload (set_aggregate (Scenario.just "rust") (Some true))
     <> build_payload (Scenario.just "rust").
Proof.
  destruct (createCacheKey_ignores_aggregate (Scenario.just "rust") (Some true))
    as (Hkey & _ & Hpayload).
  split; [exact Hkey|]. apply Hpayload. discriminate.
Defined.

(** X18. The key is built from [top_k] as given, the request from
    [top_k || 10]: a call without [top_k] and the same call with
    [top_k = 10] send the same request upstream but have different cache
    keys, so neither is served from the other's cached response. *)
Theorem createCacheKey_default_top_k (params : SearchParams) :
  top_k params = None ->
  build_payload (set_top_k params (Some 10)) = build_payload params
  /\ createCacheKey (set_top_k params (Some 10)) <> createCacheKey params.
Proof.
  intros Htop. split.
  - unfold build_payload, build_query, top_k_or_10, time_range_or_any.
    cbn [set_top_k q top_k time_range site lang region safe_mode include_snippets
         operators exclude_sites from to dedupe aggregate].
    rewrite Htop. reflexivity.
  - intros Heq. apply (f_equal String.length) in Heq. revert Heq.
    unfold createCacheKey.
    cbn [set_top_k q top_k time_range site lang region safe_mode include_snippets
         operators exclude_sites from to dedupe aggregate].
    rewrite Htop.
    destruct (operators params), (exclude_sites params);
      cbn [app omap list_omap fmap option_fmap option_map id];
      change (JS.number_to_string 10) with "10";
      rewrite join_extra_part; lia.
Qed.

Lemma createCacheKey_default_top_k_witness :
  build_payload (set_top_k (Scenario.just "rust") (Some 10))
  = build_payload (Scenario.just "rust")
  /\ createCacheKey (set_top_k (Scenario.just "rust") (Some 10))
     <> createCacheKey (Scenario.just "rust").
Proof.
  apply (createCacheKey_default_top_k (Scenario.just "rust")). reflexivity.
Defined.

(** ** The answer engine's responses *)

Lemma mapM_id_None {T : Type} (items : list (option T)) :
  mapM id items = None <-> In None items.
Proof.
  induction items as [|[x|] items IH]; cbn.
  - split; [discriminate | intros []].
  - destruct (mapM id items) eqn:E; cbn.
    + split; [discriminate|]. intros [Hbad|Hin]; [discriminate|].
      apply IH in Hin. discriminate.
    + split; [|reflexivity]. intros _. right. now apply IH.
  - split; [intros _; now left | reflexivity].
Qed.

(** X20. [normalizeSonarResults] throws in exactly two situations: the
    first element of a non-empty [choices] array is null, or the [citations]
    array holds a null entry.  Otherwise it returns, with one citation per
    entry of the engine's array (none without an array) and only the string
    entries of [highlights]. *)
Theorem normalizeSonarResults_throws (sonarResult : option SonarRaw) :
  ((exists e, normalizeSonarResults sonarResult = Throw e)
   <-> exists raw, sonarResult = Some raw
                   /\ ((exists rest, s_choices raw = Some (ChoiceNull :: rest))
                       \/ exists cs, s_citations raw = Some cs /\ In None cs))
  /\ (forall normalized raw,
        normalizeSonarResults sonarResult = Ok normalized ->
        sonarResult = Some raw ->
        length (n_citations normalized)
        = match s_citations raw with Some cs => length cs | None => 0%nat end
        /\ n_highlights normalized
           = match s_highlights raw with Some hs => omap id hs | None => [] end).
Proof.
  split.
  - destruct sonarResult as [raw|].
    2: { split; [intros [e He]; discriminate He | intros (raw & Hraw & _); discriminate]. }
    assert (HA : (exists e, extract_answer raw = Throw e)
                 <-> exists rest, s_choices raw = Some (ChoiceNull :: rest)).
    { unfold extract_answer.
      destruct (s_choices raw) as [[|[|s|c] rest]|]; split;
        try (intros [e He]; discriminate He); try (intros [rest' Hr]; discriminate Hr);
        intros _; eauto. }
    cbn [normalizeSonarResults].
    destruct (extract_answer raw) as [answer|e] eqn:Hans.
    + assert (Hno : ~ exists rest, s_choices raw = Some (ChoiceNull :: rest)).
      { intros Hx. apply HA in Hx as [e He]. discriminate He. }
      destruct (s_citations raw) as [cs|] eqn:Hcs.
      * destruct (mapM id cs) as [cs'|] eqn:Hm.
        -- split; [intros [e He]; discriminate He|].
           intros (raw' & [= <-] & [Hx | (cs0 & Hcs0 & Hin)]); [contradiction|].
           rewrite Hcs in Hcs0. injection Hcs0 as <-.
           apply mapM_id_None in Hin. congruence.
        -- split; [intros _ | eauto]. exists raw. split; [reflexivity|]. right.
           exists cs. split; [exact Hcs | now apply mapM_id_None].
      * split; [intros [e He]; discriminate He|].
        intros (raw' & [= <-] & [Hx | (cs0 & Hcs0 & _)]); [contradiction | congruence].
    + split; [intros _ | eauto]. exists raw. split; [reflexivity|]. left.
      apply HA. eauto.
  - intros normalized raw Hok ->. revert Hok. cbn [normalizeSonarResults].
    destruct (extract_answer raw); [|discriminate].
    destruct (s_citations raw) as [cs|].
    + destruct (mapM id cs) as [cs'|] eqn:Hm; [|discriminate].
      intros [= <-]. cbn [n_citations n_highlights]. split; [|reflexivity].
      rewrite length_map. apply length_mapM in Hm. lia.
    + intros [= <-]. split; reflexivity.
Qed.

(** ** The tool handlers *)

Section HandlerProps.
Context `{URLApi} `{ToolRuntime} (env : Env).

(** X21. When the credential is missing both handlers answer with the fixed
    text "PERPLEXITY_API_KEY is not configured in environment variables"
    and, like a call whose input fails validation or whose environment
    cannot be read, leave the state untouched: the limiter is not pruned,
    the cache is not read and nothing is sent. *)
Theorem handlers_without_credential (params : SearchParams) (input : AdvancedInput)
    (w : World) :
  (forall validated cfg,
      schema_parse params = Ok validated -> getEnv env = Ok cfg ->
      or_null (PERPLEXITY_API_KEY cfg) = None ->
      performWebSearch env params w
      = (createErrorResponse
           "PERPLEXITY_API_KEY is not configured in environment variables", w))
  /\ (forall validated cfg,
        advanced_schema_parse input = Ok validated -> getEnv env = Ok cfg ->
        or_null (PERPLEXITY_API_KEY cfg) = None ->
        performAdvancedWebSearch env input w
        = (createErrorResponse
             "PERPLEXITY_API_KEY is not configured in environment variables", w))
  /\ ((exists e, schema_parse params = Throw e) \/ (exists e, getEnv env = Throw e) ->
      snd (performWebSearch env params w) = w)
  /\ ((exists e, advanced_schema_parse input = Throw e) \/ (exists e, getEnv env = Throw e) ->
      snd (performAdvancedWebSearch env input w) = w).
Proof.
  unfold performWebSearch, performAdvancedWebSearch. cbv zeta.
  split; [|split; [|split]].
  - intros validated cfg -> -> ->. reflexivity.
  - intros validated cfg -> -> ->. reflexivity.
  - intros [[e ->] | [e ->]]; [reflexivity|].
    destruct (schema_parse params); reflexivity.
  - intros [[e ->] | [e ->]]; [reflexivity|].
    destruct (advanced_schema_parse input); reflexivity.
Qed.

(** X22. Neither handler ever reaches the client: whatever the input, the
    engine and the model, and whatever the environment sets, a call leaves
    cache, limiter, clock and network untouched.  A call with valid input
    is answered with the fixed text "PERPLEXITY_API_KEY is not configured in
    environment variables", or with the error of [getEnv] behind the
    handler's prefix. *)
Theorem handlers_never_search (params : SearchParams) (input : AdvancedInput)
    (w : World) :
  snd (performWebSearch env params w) = w
  /\ snd (performAdvancedWebSearch env input w) = w
  /\ (forall validated, schema_parse params = Ok validated ->
        fst (performWebSearch env params w)
        = match getEnv env with
          | Ok _ =>
              createErrorResponse
                "PERPLEXITY_API_KEY is not configured in environment variables"
          | Throw error =>
              createErrorResponse
                ("Error performing web search: " +:+ String_of_thrown error)
          end)
  /\ (forall validated, advanced_schema_parse input = Ok validated ->
        fst (performAdvancedWebSearch env input w)
        = match getEnv env with
          | Ok _ =>
              createErrorResponse
                "PERPLEXITY_API_KEY is not configured in environment variables"
          | Throw error =>
              createErrorResponse
                ("Error performing advanced web search: " +:+ String_of_thrown error)
          end).
Proof.
  unfold performWebSearch, performAdvancedWebSearch. cbv zeta.
  split; [|split; [|split]].
  - destruct (schema_parse params); [|reflexivity].
    destruct (getEnv env) as [cfg|e] eqn:Hcfg; [|reflexivity].
    destruct (getEnv_no_credential env cfg Hcfg) as [-> _]. reflexivity.
  - destruct (advanced_schema_parse input); [|reflexivity].
    destruct (getEnv env) as [cfg|e] eqn:Hcfg; [|reflexivity].
    destruct (getEnv_no_credential env cfg Hcfg) as [-> _]. reflexivity.
  - intros validated ->.
    destruct (getEnv env) as [cfg|e] eqn:Hcfg; [|reflexivity].
    destruct (getEnv_no_credential env cfg Hcfg) as [-> _]. reflexivity.
  - intros validated ->.
    destruct (getEnv env) as [cfg|e] eqn:Hcfg; [|reflexivity].
    destruct (getEnv_no_credential env cfg Hcfg) as [-> _]. reflexivity.
Qed.

End HandlerProps.

Module HandlerRuns.
Import Scenario.

#[local] Existing Instance RefURL.api.
#[local] Existing Instance PlainRuntime.runtime.

Lemma handlers_without_credential_witness :
  performWebSearch env_up (just "rust") saturated
  = (createErrorResponse "PERPLEXITY_API_KEY is not configured in environment variables",
     saturated).
Proof.
  destruct (getEnv_returns env_up) as [cfg Hcfg]; [vm_compute; exact I|].
  destruct (getEnv_no_credential env_up cfg Hcfg) as [Hkey _].
  apply (handlers_without_credential env_up (just "rust")
           {| adv_params := just "rust"; engine := None |} saturated)
    with (validated := just "rust") (cfg := cfg);
    [reflexivity | exact Hcfg | rewrite Hkey; reflexivity].
Defined.

Lemma handlers_never_search_witness :
  let input := {| adv_params := with_model "rust" sonar_pro;
                  engine := Some sonar_answer |} in
  performAdvancedWebSearch env_up input warm
  = (createErrorResponse "PERPLEXITY_API_KEY is not configured in environment variables",
     warm)
  /\ content_text (fst (performWebSearch env_bare (with_top_k "rust" 5) warm))
     = "Error performing web search: Error: GLM_API_KEY environment variable is required".
Proof.
  intros input.
  destruct (handlers_never_search env_up (with_top_k "rust" 5) input warm)
    as (_ & Hstate & _ & Hadvanced).
  destruct (handlers_never_search env_bare (with_top_k "rust" 5) input warm)
    as (_ & _ & Hplain & _).
  split.
  - apply injective_projections; [|exact Hstate].
    rewrite (Hadvanced input eq_refl). vm_compute. reflexivity.
  - rewrite (Hplain (with_top_k "rust" 5) eq_refl). vm_compute. reflexivity.
Defined.

Lemma normalizeSonarResults_throws_witness :
  exists e, normalizeSonarResults
              (Some {| s_choices := None; s_answer := Some "text";
                       s_citations := Some [Some {| c_title := Some "t"; c_url := None;
                                                    c_snippet := None |}; None];
                       s_highlights := None; s_clusters := None |}) = Throw e.
Proof.
  apply normalizeSonarResults_throws. eexists. split; [reflexivity|].
  right. eexists. split; [reflexivity|]. right. now left.
Defined.

End HandlerRuns.

(** ** Cache: how many entries it holds *)

(** X23. The size reported by [getStats] changes by at most one per
    operation: [set] adds one entry for a new key and none when it
    overwrites, [delete] removes one entry for a present key and none
    otherwise, [clear] leaves no entry, and a [get] or a sweep never adds
    one. *)
Theorem Cache_size_accounting {A : Type} (now : Z) (key : string) (d : A)
    (ttl_arg : option Z) (c : Cache A) :
  let present := bool_decide (is_Some (cache c !! key)) in
  fst (Cache_getStats (Cache_set now key d ttl_arg c))
  = (if present then fst (Cache_getStats c) else S (fst (Cache_getStats c)))
  /\ fst (Cache_getStats (Cache_delete key c))
     = (if present then pred (fst (Cache_getStats c)) else fst (Cache_getStats c))
  /\ (present = true -> 0 < fst (Cache_getStats c))%nat
  /\ Cache_getStats (Cache_clear c) = (0%nat, defaultTtl c)
  /\ (fst (Cache_getStats (snd (Cache_get now key c))) <= fst (Cache_getStats c))%nat
  /\ (fst (Cache_getStats (Cache_cleanup now c)) <= fst (Cache_getStats c))%nat.
Proof.
  intros present. subst present.
  unfold Cache_getStats, Cache_set, Cache_delete, Cache_clear, Cache_cleanup, Cache_get.
  cbn [fst snd cache defaultTtl].
  rewrite map_size_insert, map_size_delete.
  destruct (cache c !! key) as [entry|] eqn:Hentry.
  - rewrite bool_decide_eq_true_2 by eauto.
    assert (Hpos : size (cache c) <> 0%nat)
      by (apply (map_size_ne_0_lookup_2 _ key); rewrite Hentry; eauto).
    split; [reflexivity|]. split; [reflexivity|]. split; [lia|].
    split; [now rewrite map_size_empty|]. split.
    + destruct (ttl entry <? now - timestamp entry); cbn [snd cache]; [|lia].
      rewrite map_size_delete, Hentry. cbn. lia.
    + apply map_subseteq_size, map_filter_subseteq.
  - rewrite bool_decide_eq_false_2 by (intros [x Hx]; discriminate Hx).
    split; [reflexivity|]. split; [reflexivity|]. split; [discriminate|].
    split; [now rewrite map_size_empty|]. split.
    + cbn [snd]. lia.
    + apply map_subseteq_size, map_filter_subseteq.
Qed.

(** ** The cost estimates *)

Section CostProps.
Import PrimFloat.
#[local] Set Warnings "-inexact-float".

(** X25. The cost estimates are doubles and carry the rounding of their
    one multiplication and one addition: three results cost
    0.00030000000000000003, not 0.0003, and an answer of the base model
    over three evidence items costs 0.013000000000000001, not 0.013.
    Without results or evidence the estimate is zero, or the base cost of
    the model. *)
Theorem cost_estimates_are_doubles :
  calculateCost 3 = 0.00030000000000000003%float
  /\ calculateCost 3 <> 0.0003%float
  /\ calculateSonarCost sonar 3 = 0.013000000000000001%float
  /\ calculateSonarCost sonar 3 <> 0.013%float
  /\ calculateCost 0 = 0%float
  /\ map (fun model => calculateSonarCost model 0)
         [sonar; sonar_pro; sonar_reasoning; sonar_reasoning_pro; sonar_deep_research]
     = [0.01; 0.02; 0.03; 0.04; 0.05]%float.
Proof.
  repeat split; vm_compute; first [reflexivity | discriminate].
Qed.

End CostProps.
